(** * evora_utils.choose_dark : selection, scaling and interpolation of darks

    A shallow embedding of [src/evora_utils.py].  The module holds one
    function, [choose_dark], which reads a list of reference exposure
    times, picks one or two dark frames from disk and returns a pixel array.

    Modelling decisions.
    - Numbers (exposure times, pixels, weights) are rationals [Q] with the
      exact arithmetic of [QArith]: floating-point results are taken without
      rounding, but with their range.  Values that float64 has and [Q] has
      not (inf, nan: the result of a division by zero or of an overflow in
      numpy, which warns and does not raise) are an explicit outcome,
      [Unmodelled NonFiniteArray].
    - The target exposure is a Python int or a Python float ([pynum]): numpy
      treats the two differently when it multiplies an array by them.
    - A dark frame is a 2-d array, [list (list Q)], a list of rows; the
      element type of the array stored in a file ([dtype]: an integer type
      with its bounds, or a floating-point type with its largest finite
      value) is kept beside it.  It matters where the code multiplies a
      stored array by the target: an integer array times a Python int stays
      in the integer type and wraps around.
    - The interpreter state is a [World]: the list object bound to the
      default of [explist] (created once, when the [def] is executed), the
      list objects the caller owns, the files on disk and what was printed.
      [choose_dark] is a computation in a state-and-exception monad over it.
    - Python 3 semantics ([/] is true division, [print] is a function) and
      POSIX paths ([os.path.join] is [posixpath.join]). *)

From Stdlib Require Import ZArith QArith Qround Qabs Qfield Lqa String Ascii List Bool Lia.
From Stdlib Require Import DecimalString DecimalZ DecimalPos.
From stdpp Require Import gmap strings.
Import ListNotations.

(** ** Numbers *)

(** Python's [int(x)] on a number: truncation toward zero. *)
Definition int (x : Q) : Z := Z.quot (Qnum x) (Z.pos (Qden x)).

(** [str] of a Python int, as [str.format] renders it for a bare [{}]. *)
Definition str (z : Z) : string := NilZero.string_of_int (Z.to_int z).

(** The comparison [x < y]; [Qle_bool] is the library's [x <= y]. *)
Definition Qltb (x y : Q) : bool := negb (Qle_bool y x).

(** A Python number as [exptime] can be given: an int (unbounded) or a float. *)
Inductive pynum : Type :=
| PyInt (z : Z)
| PyFloat (q : Q).

Definition num_value (x : pynum) : Q :=
  match x with
  | PyInt z => inject_Z z
  | PyFloat q => q
  end.
Coercion num_value : pynum >-> Q.

(** ** Paths and file names *)

Definition sep : ascii := "/"%char.

Definition startswith_sep (s : string) : bool :=
  match s with
  | String c _ => Ascii.eqb c sep
  | EmptyString => false
  end.

Fixpoint endswith_sep (s : string) : bool :=
  match s with
  | EmptyString => false
  | String c EmptyString => Ascii.eqb c sep
  | String _ s' => endswith_sep s'
  end.

(** [os.path.join(a, b)] of posixpath: an absolute [b] replaces [a]; an empty
    [a] or one that ends in the separator is extended by [b]; otherwise a
    separator is put in between. *)
Definition os_path_join (a b : string) : string :=
  if startswith_sep b then b
  else if (String.eqb a "" || endswith_sep a)%bool then a +:+ b
  else a +:+ "/" +:+ b.

(** ['dark_{}s_{}.fits'.format(e, suffix)] *)
Definition dark_name (e : Z) (suffix : string) : string :=
  "dark_" +:+ str e +:+ "s_" +:+ suffix +:+ ".fits".

(** ** Arrays *)

Definition Frame : Type := list (list Q).

(** 1-d numpy operations on the array of reference exposures. *)

(** [x in a] for an array [a]: [(a == x).any()]. *)
Definition np_contains (x : Q) (a : list Q) : bool := existsb (Qeq_bool x) a.

(** [a.min()] and [a.max()]; [None] on a zero-size array, where numpy
    raises ValueError. *)
Fixpoint min_of (a : list Q) : option Q :=
  match a with
  | [] => None
  | x :: a' =>
      match min_of a' with
      | None => Some x
      | Some m => Some (if Qle_bool x m then x else m)
      end
  end.

Fixpoint max_of (a : list Q) : option Q :=
  match a with
  | [] => None
  | x :: a' =>
      match max_of a' with
      | None => Some x
      | Some m => Some (if Qle_bool m x then x else m)
      end
  end.

(** [a[a < t]] and [a[a > t]]: boolean-mask selection. *)
Definition select_lt (a : list Q) (t : Q) : list Q := List.filter (fun x => Qltb x t) a.
Definition select_gt (a : list Q) (t : Q) : list Q := List.filter (fun x => Qltb t x) a.

(** 2-d operations.  The exact pixelwise product and quotient by a scalar:
    what floating-point arithmetic gives within its range ([multiply_scalar]
    and [true_divide] below add the element types and their limits). *)
Definition array_mul (d : Frame) (s : Q) : Frame := map (map (fun p => p * s)%Q) d.
Definition array_div (d : Frame) (s : Q) : Frame := map (map (fun p => p / s)%Q) d.

Definition has_pixels (d : Frame) : bool := existsb (fun r => negb (Nat.eqb (length r) 0)) d.

(** Element types of arrays: an integer type with its least and greatest
    value, or a floating-point type with its greatest finite value. *)
Inductive dtype : Type :=
| Integer (lo hi : Z)
| Floating (fmax : Q).

(** The greatest finite float64 and float32. *)
Definition DBL_MAX : Q := inject_Z ((2 ^ 53 - 1) * 2 ^ 971).
Definition FLT_MAX : Q := inject_Z ((2 ^ 24 - 1) * 2 ^ 104).

Definition uint8 : dtype := Integer 0 255.
Definition int16 : dtype := Integer (-32768) 32767.
Definition uint16 : dtype := Integer 0 65535.
Definition int32 : dtype := Integer (-2147483648) 2147483647.
Definition int64 : dtype := Integer (-9223372036854775808) 9223372036854775807.
Definition float32 : dtype := Floating FLT_MAX.
Definition float64 : dtype := Floating DBL_MAX.

(** Integer arithmetic of numpy wraps around silently. *)
Definition wrap (lo hi z : Z) : Z := (lo + (z - lo) mod (hi - lo + 1))%Z.

(** Every pixel is within the finite range of a floating-point type. *)
Definition within (fmax : Q) (d : Frame) : bool :=
  forallb (forallb (fun p => Qle_bool (Qabs p) fmax)) d.

(** numpy broadcasting along one axis: two lengths are compatible when they
    are equal or one of them is 1; the operand of length 1 is repeated. *)
Definition broadcast_len (n m : nat) : option nat :=
  if Nat.eqb n m then Some n
  else if Nat.eqb n 1 then Some m
  else if Nat.eqb m 1 then Some n
  else None.

Definition stretch {A : Type} (n : nat) (l : list A) : list A :=
  if Nat.eqb (length l) n then l
  else match l with
       | [x] => repeat x n
       | _ => l
       end.

Fixpoint sequence_opt {A : Type} (l : list (option A)) : option (list A) :=
  match l with
  | [] => Some []
  | None :: _ => None
  | Some x :: l' =>
      match sequence_opt l' with
      | Some r => Some (x :: r)
      | None => None
      end
  end.

Definition broadcast2 {A B : Type} (f : A -> A -> option B) (xs ys : list A)
  : option (list B) :=
  match broadcast_len (length xs) (length ys) with
  | Some n =>
      sequence_opt (map (fun p => f (fst p) (snd p))
                        (combine (stretch n xs) (stretch n ys)))
  | None => None
  end.

(** [d1 + d2] on 2-d arrays (rows, then columns, are broadcast); [None] when
    the shapes cannot be broadcast together. *)
Definition array_add (d1 d2 : Frame) : option Frame :=
  broadcast2 (broadcast2 (fun p q => Some (p + q)%Q)) d1 d2.

(** ** The interpreter state and the monad *)

Record World : Type := mkWorld {
  fn_defaults : list Q;              (* the list object in choose_dark.__defaults__ *)
  heap : gmap nat (list Q);          (* list objects owned by callers *)
  files : gmap string Frame;         (* primary image array of each FITS file *)
  dtypes : gmap string dtype;        (* its element type; float64 where not given *)
  stdout : list string               (* lines printed so far, oldest first *)
}.

Definition dtype_of (w : World) (path : string) : dtype :=
  match dtypes w !! path with
  | Some ty => ty
  | None => float64
  end.

Inductive exn : Type :=
| ValueError_zero_size            (* min/max of a zero-size array *)
| ValueError_broadcast            (* operands could not be broadcast together *)
| FileNotFoundError (path : string)
| UnboundLocalError (name : string)
| OverflowError.                  (* a Python int too large to convert to float *)

Inductive limit : Type :=
| NonFiniteArray                  (* a division by zero or an overflow: inf or nan *)
| PromotionRule                   (* numpy 1 and numpy 2 promote differently here *)
| DanglingReference.              (* a list location that the heap does not hold *)

Inductive outcome (A : Type) : Type :=
| Returns (a : A)
| Raises (e : exn)
| Unmodelled (l : limit).
Arguments Returns {A} a.
Arguments Raises {A} e.
Arguments Unmodelled {A} l.

(** A floating-point result: the exact value if it is in range, inf if not. *)
Definition float_result (fmax : Q) (d : Frame) : outcome (dtype * Frame) :=
  if within fmax d then Returns (Floating fmax, d) else Unmodelled NonFiniteArray.

(** A Python scalar [q] times an array of a floating-point type: the scalar
    takes the type of the array.  Beyond the range of that type numpy 2 gives
    inf and numpy 1 promotes the array. *)
Definition float_times (fmax : Q) (d : Frame) (q : Q) : outcome (dtype * Frame) :=
  if Qle_bool (Qabs q) fmax then float_result fmax (array_mul d q)
  else Unmodelled PromotionRule.

(** [array * x] for an array of element type [ty] as read from a file and a
    Python number [x]; the result comes with its element type.
    - integer array, Python int in the range of the type: the integer type is
      kept and every product wraps around; out of the range numpy 2 raises
      and numpy 1 promotes the array;
    - integer array, Python float: float64;
    - floating-point array: the type is kept; a Python int beyond the range
      of a C double cannot be converted and raises OverflowError. *)
Definition multiply_scalar (ty : dtype) (d : Frame) (x : pynum)
  : outcome (dtype * Frame) :=
  match ty, x with
  | Integer lo hi, PyInt z =>
      if ((lo <=? z) && (z <=? hi))%Z
      then Returns (Integer lo hi,
                    map (map (fun p => inject_Z (wrap lo hi (int p * z)))) d)
      else Unmodelled PromotionRule
  | Integer _ _, PyFloat q => float_result DBL_MAX (array_mul d q)
  | Floating fmax, PyInt z =>
      if Qle_bool (Qabs (inject_Z z)) DBL_MAX
      then float_times fmax d (inject_Z z)
      else Raises OverflowError
  | Floating fmax, PyFloat q => float_times fmax d q
  end.

(** [array / y] for a numpy scalar [y] (an int64 or a float64): true
    division.  The result is float64 in numpy 2; in numpy 1 a float32 array
    stays float32, so the two differ when the quotient leaves that range. *)
Definition true_divide (ty : dtype) (d : Frame) (y : Q) : outcome Frame :=
  if Qeq_bool y 0
  then (if has_pixels d then Unmodelled NonFiniteArray else Returns d)
  else
    let q := array_div d y in
    if within DBL_MAX q
    then match ty with
         | Floating fmax => if within fmax q then Returns q else Unmodelled PromotionRule
         | Integer _ _ => Returns q
         end
    else Unmodelled NonFiniteArray.

Definition M (A : Type) : Type := World -> World * outcome A.

Definition ret {A : Type} (a : A) : M A := fun w => (w, Returns a).

Definition bind {A B : Type} (c : M A) (k : A -> M B) : M B :=
  fun w =>
    match c w with
    | (w', Returns a) => k a w'
    | (w', Raises e) => (w', Raises e)
    | (w', Unmodelled l) => (w', Unmodelled l)
    end.

Definition raise {A : Type} (e : exn) : M A := fun w => (w, Raises e).
Definition unmodelled {A : Type} (l : limit) : M A := fun w => (w, Unmodelled l).

Declare Scope py_scope.
Delimit Scope py_scope with py.
Notation "x <- c ;; k" := (bind c (fun x => k))
  (at level 100, c at next level, right associativity) : py_scope.
Notation "c ;; k" := (bind c (fun _ => k))
  (at level 100, right associativity) : py_scope.

(** How the caller supplies [explist]: omitted (the shared default object is
    used) or a reference to one of the caller's list objects. *)
Inductive explist_arg : Type :=
| Omitted
| Passed (l : nat).

(** [np.array(explist)]: a new array with the elements of the list object. *)
Definition np_array (a : explist_arg) : M (list Q) :=
  fun w =>
    match a with
    | Omitted => (w, Returns (fn_defaults w))
    | Passed l =>
        match heap w !! l with
        | Some xs => (w, Returns xs)
        | None => (w, Unmodelled DanglingReference)
        end
    end.

Definition np_min (a : list Q) : M Q :=
  match min_of a with
  | Some m => ret m
  | None => raise ValueError_zero_size
  end.

Definition np_max (a : list Q) : M Q :=
  match max_of a with
  | Some m => ret m
  | None => raise ValueError_zero_size
  end.

(** [print(a, b, ...)]: one line, the arguments separated by blanks. *)
Definition print (line : string) : M unit :=
  fun w => (mkWorld (fn_defaults w) (heap w) (files w) (dtypes w) (stdout w ++ [line]),
            Returns tt).

(** [fits.getdata(path)] gives the primary array of the file, its values and
    its element type: [fits_getdata] gives the values, [fits_dtype] the type. *)
Definition fits_getdata (path : string) : M Frame :=
  fun w =>
    match files w !! path with
    | Some d => (w, Returns d)
    | None => (w, Raises (FileNotFoundError path))
    end.

Definition fits_dtype (path : string) : M dtype :=
  fun w => (w, Returns (dtype_of w path)).

(** Scalar division; a zero divisor leaves the rationals. *)
Definition np_divide (x y : Q) : M Q :=
  if Qeq_bool y 0 then unmodelled NonFiniteArray else ret (x / y)%Q.

Definition np_multiply (ty : dtype) (d : Frame) (x : pynum) : M (dtype * Frame) :=
  fun w => (w, multiply_scalar ty d x).

Definition np_array_divide (ty : dtype) (d : Frame) (y : Q) : M Frame :=
  fun w => (w, true_divide ty d y).

Definition np_array_add (d1 d2 : Frame) : M Frame :=
  match array_add d1 d2 with
  | Some d => ret d
  | None => raise ValueError_broadcast
  end.

Definition when (b : bool) (c : M unit) : M unit := if b then c else ret tt.

(** ** choose_dark *)

Definition DEFAULT_DARK_DIR : string := "darks".
Definition DEFAULT_SUFFIX : string := "medcombine_sub".
Definition DEFAULT_EXPLIST : list Q :=
  map inject_Z [5; 10; 20; 30; 60; 120; 300]%Z.

Local Open Scope py_scope.

Definition choose_dark (exptime : pynum) (dark_dir suffix : string)
    (explist : explist_arg) (verbose : bool) : M Frame :=
  explist <- np_array explist ;;
  if np_contains (inject_Z (int exptime)) explist then
    let darkfile := os_path_join dark_dir (dark_name (int exptime) suffix) in
    when verbose (print ("Using " +:+ darkfile)) ;;
    dark <- fits_getdata darkfile ;;
    ret dark
  else
    mn <- np_min explist ;;
    if Qltb exptime mn then
      mn <- np_min explist ;;
      let darkfile := os_path_join dark_dir (dark_name (int mn) suffix) in
      d <- fits_getdata darkfile ;;
      ty <- fits_dtype darkfile ;;
      prod <- np_multiply ty d exptime ;;
      mn <- np_min explist ;;
      dark <- np_array_divide (fst prod) (snd prod) mn ;;
      ret dark
    else
      mn <- np_min explist ;;
      mx <- np_max explist ;;
      if (Qltb mn exptime && Qltb exptime mx)%bool then
        lower_bound <- np_max (select_lt explist exptime) ;;
        upper_bound <- np_min (select_gt explist exptime) ;;
        let diff := (upper_bound - lower_bound)%Q in
        weight_lower <- np_divide (exptime - lower_bound)%Q diff ;;
        weight_upper <- np_divide (upper_bound - exptime)%Q diff ;;
        let darkfile1 := os_path_join dark_dir (dark_name (int lower_bound) suffix) in
        let darkfile2 := os_path_join dark_dir (dark_name (int upper_bound) suffix) in
        when verbose (print ("Averaging " +:+ darkfile1 +:+ " & " +:+ darkfile2)) ;;
        dark1 <- fits_getdata darkfile1 ;;
        dark2 <- fits_getdata darkfile2 ;;
        (* the weights are float64 scalars: the products are float64 whatever
           the stored type, and no larger than the pixels *)
        dark <- np_array_add (array_mul dark1 weight_lower) (array_mul dark2 weight_upper) ;;
        ret dark
      else
        mx <- np_max explist ;;
        if Qltb mx exptime then
          mx <- np_max explist ;;
          let darkfile := os_path_join dark_dir (dark_name (int mx) suffix) in
          when verbose (print ("Using " +:+ darkfile)) ;;
          d <- fits_getdata darkfile ;;
          ty <- fits_dtype darkfile ;;
          prod <- np_multiply ty d exptime ;;
          mx <- np_max explist ;;
          dark <- np_array_divide (fst prod) (snd prod) mx ;;
          ret dark
        else
          raise (UnboundLocalError "dark").

Local Close Scope py_scope.

(** A concrete world for the examples: the default library on disk, whose
    frame at exposure [e] is a 2x2 array with pixels e, 2e, 3e, 4e. *)
Definition sample_frame (e : Z) : Frame :=
  [[inject_Z e; inject_Z (2 * e)]; [inject_Z (3 * e); inject_Z (4 * e)]].

Definition sample_files : gmap string Frame :=
  list_to_map
    (map (fun e => (os_path_join DEFAULT_DARK_DIR (dark_name e DEFAULT_SUFFIX), sample_frame e))
         [5; 10; 20; 30; 60; 120; 300]%Z).

Definition sample_world : World :=
  mkWorld DEFAULT_EXPLIST (<[ 0%nat := [inject_Z 10; inject_Z 20] ]> ∅) sample_files ∅ [].

(** A caller whose list object at location 0 is empty. *)
Definition empty_library_world : World :=
  mkWorld DEFAULT_EXPLIST (<[ 0%nat := [] ]> ∅) sample_files ∅ [].

(** A library whose minimum reference is not a whole number. *)
Definition fractional_min_world : World :=
  mkWorld DEFAULT_EXPLIST (<[ 0%nat := [5.5%Q; inject_Z 10] ]> ∅) sample_files ∅ [].

(** The default library with no file on disk. *)
Definition bare_world : World := mkWorld DEFAULT_EXPLIST ∅ ∅ ∅ [].

(** A caller whose library holds a reference exposure of 0 seconds. *)
Definition zero_reference_world : World :=
  mkWorld DEFAULT_EXPLIST (<[ 0%nat := [inject_Z 0; inject_Z 10] ]> ∅)
          (<[ "darks/dark_0s_medcombine_sub.fits" := sample_frame 1 ]> sample_files) ∅ [].

(** A caller holding one library twice: in order, and shuffled with a
    repeated entry. *)
Definition shuffled_world : World :=
  mkWorld DEFAULT_EXPLIST
          (<[ 1%nat := [inject_Z 20; inject_Z 10; inject_Z 10] ]>
             (<[ 0%nat := [inject_Z 10; inject_Z 20] ]> ∅))
          sample_files ∅ [].

(** The default library stored as raw 16-bit integer frames; the frame at 5
    seconds holds bright pixels. *)
Definition bright_frame : Frame :=
  [[inject_Z 20000; inject_Z 100]; [inject_Z 1000; inject_Z 0]].

Definition int16_world : World :=
  mkWorld DEFAULT_EXPLIST ∅
          (<[ "darks/dark_5s_medcombine_sub.fits" := bright_frame ]> sample_files)
          (list_to_map
             (map (fun e => (os_path_join DEFAULT_DARK_DIR (dark_name e DEFAULT_SUFFIX),
                             int16))
                  [5; 10; 20; 30; 60; 120; 300]%Z))
          [].

(** ** The vocabulary of the statements *)

(** [x] is a member of the reference exposures (numeric equality). *)
Definition member (x : Q) (a : list Q) : Prop := exists r, In r a /\ (r == x)%Q.

(** A reference exposure that is a whole number. *)
Definition is_integer (x : Q) : Prop := (inject_Z (int x) == x)%Q.

(** Two frames are equal pixel by pixel, as numbers. *)
Definition frame_eq (d1 d2 : Frame) : Prop := Forall2 (Forall2 Qeq) d1 d2.

(** Two frames have the same shape. *)
Definition same_shape (d1 d2 : Frame) : Prop :=
  Forall2 (fun r1 r2 : list Q => length r1 = length r2) d1 d2.

(** The pixelwise weighted sum [w1 * d1 + w2 * d2]. *)
Definition weighted_sum (d1 : Frame) (w1 : Q) (d2 : Frame) (w2 : Q) : Frame :=
  zip_with (zip_with (fun p1 p2 => p1 * w1 + p2 * w2)%Q) d1 d2.

(** The world after one more printed line. *)
Definition printed (w : World) (line : string) : World :=
  mkWorld (fn_defaults w) (heap w) (files w) (dtypes w) (stdout w ++ [line]).

(** What loading one file gives. *)
Definition loaded (w : World) (path : string) : outcome Frame :=
  match files w !! path with
  | Some d => Returns d
  | None => Raises (FileNotFoundError path)
  end.

(** The branches cover every target: no call on this library ends in the
    unbound local. *)
Definition exhaustive (refs : list Q) : Prop :=
  forall (exptime : pynum) (dark_dir suffix : string) (explist : explist_arg)
         (verbose : bool) (w : World) (name : string),
    np_array explist w = (w, Returns refs) ->
    snd (choose_dark exptime dark_dir suffix explist verbose w)
      <> Raises (UnboundLocalError name).

(** The call leaves every list object and every file as it found them. *)
Definition preserves {A : Type} (c : M A) : Prop :=
  forall w, fn_defaults (fst (c w)) = fn_defaults w
         /\ heap (fst (c w)) = heap w
         /\ files (fst (c w)) = files w
         /\ dtypes (fst (c w)) = dtypes w
         /\ exists lines, stdout (fst (c w)) = stdout w ++ lines.

(** A computation that never ends in the unbound-local error. *)
Definition assigns {A : Type} (c : M A) : Prop :=
  forall w name, snd (c w) <> Raises (UnboundLocalError name).

(** Two worlds that differ at most in what has been printed. *)
Definition same_store (w1 w2 : World) : Prop :=
  fn_defaults w1 = fn_defaults w2 /\ heap w1 = heap w2 /\
  files w1 = files w2 /\ dtypes w1 = dtypes w2.

(** Two computations that, from worlds with the same store, end with the
    same outcome and again in worlds with the same store. *)
Definition sim {A : Type} (c1 c2 : M A) : Prop :=
  forall w1 w2, same_store w1 w2 ->
    snd (c1 w1) = snd (c2 w2) /\ same_store (fst (c1 w1)) (fst (c2 w2)).

(** A computation that leaves the whole world, output included, as it is. *)
Definition read_only {A : Type} (c : M A) : Prop := forall w, fst (c w) = w.

(** A computation that prints at most [n] lines. *)
Definition prints_at_most {A : Type} (n : nat) (c : M A) : Prop :=
  forall w, exists lines,
    stdout (fst (c w)) = stdout w ++ lines /\ (length lines <= n)%nat.

(** The path a call takes, as decided by the target and the references. *)
Inductive path_of (exptime : Q) (refs : list Q) : Prop :=
| PathExact :
    np_contains (inject_Z (int exptime)) refs = true -> path_of exptime refs
| PathEmpty :
    refs = [] -> path_of exptime refs
| PathBelow (mn : Q) :
    np_contains (inject_Z (int exptime)) refs = false ->
    min_of refs = Some mn -> (exptime < mn)%Q -> path_of exptime refs
| PathBetween (mn mx lb ub : Q) :
    np_contains (inject_Z (int exptime)) refs = false ->
    min_of refs = Some mn -> max_of refs = Some mx ->
    (mn < exptime)%Q -> (exptime < mx)%Q ->
    max_of (select_lt refs exptime) = Some lb ->
    min_of (select_gt refs exptime) = Some ub -> path_of exptime refs
| PathAbove (mn mx : Q) :
    np_contains (inject_Z (int exptime)) refs = false ->
    min_of refs = Some mn -> max_of refs = Some mx ->
    (mx < exptime)%Q -> path_of exptime refs
| PathNone (mn mx : Q) :
    np_contains (inject_Z (int exptime)) refs = false ->
    min_of refs = Some mn -> max_of refs = Some mx ->
    (exptime == mn)%Q \/ (exptime == mx)%Q -> path_of exptime refs.

(** How a scaling path ends: the frame of [path] times [t], in the element
    type of the file, then divided by [m]. *)
Definition scaled (w : World) (path : string) (t : pynum) (m : Q) : outcome Frame :=
  match files w !! path with
  | None => Raises (FileNotFoundError path)
  | Some d =>
      match multiply_scalar (dtype_of w path) d t with
      | Returns prod => true_divide (fst prod) (snd prod) m
      | Raises e => Raises e
      | Unmodelled l => Unmodelled l
      end
  end.

(** A property of every pixel of a frame. *)
Definition all_pixels (P : Q -> Prop) (d : Frame) : Prop := Forall (Forall P) d.

(** A value within the finite range of a floating-point type. *)
Definition in_range (fmax : Q) (p : Q) : Prop := (Qabs p <= fmax)%Q.

(** The products [pixel * x] are representable in the element type in which
    numpy forms them: without wrap-around in an integer type (whole-number
    pixels, a Python int within the type), within the finite range of a
    floating-point type. *)
Definition product_representable (ty : dtype) (d : Frame) (x : pynum) : Prop :=
  match ty, x with
  | Integer lo hi, PyInt z =>
      (lo <= z <= hi)%Z /\
      all_pixels (fun p => is_integer p /\ (lo <= int p * z <= hi)%Z) d
  | Integer _ _, PyFloat q =>
      all_pixels (fun p => in_range DBL_MAX (p * q)) d
  | Floating fmax, _ =>
      in_range DBL_MAX x /\ in_range fmax x /\
      all_pixels (fun p => in_range fmax (p * x)) d
  end.

(** The element type of the product [array * x]. *)
Definition product_type (ty : dtype) (x : pynum) : dtype :=
  match ty, x with
  | Integer lo hi, PyInt _ => Integer lo hi
  | Integer _ _, PyFloat _ => float64
  | Floating fmax, _ => Floating fmax
  end.

(** The quotients [pixel * x / m] are within the finite range of float64, and
    of the floating-point type of the product. *)
Definition quotient_representable (ty : dtype) (d : Frame) (x : pynum) (m : Q) : Prop :=
  all_pixels (fun p => in_range DBL_MAX (p * x / m)) d /\
  match product_type ty x with
  | Floating fmax => all_pixels (fun p => in_range fmax (p * x / m)) d
  | Integer _ _ => True
  end.

(** How the interpolation path ends: the frames of [path1] and [path2], the
    first times [a] plus the second times [b]. *)
Definition averaged (w : World) (path1 path2 : string) (a b : Q) : outcome Frame :=
  match files w !! path1 with
  | None => Raises (FileNotFoundError path1)
  | Some d1 =>
      match files w !! path2 with
      | None => Raises (FileNotFoundError path2)
      | Some d2 =>
          match array_add (array_mul d1 a) (array_mul d2 b) with
          | Some d => Returns d
          | None => Raises ValueError_broadcast
          end
      end
  end.

(** The pixel of a frame in row [i], column [j]. *)
Definition pixel (d : Frame) (i j : nat) : option Q :=
  match nth_error d i with
  | Some r => nth_error r j
  | None => None
  end.

(** The straight line through frame [d0] at exposure [x0] and frame [d1] at
    exposure [x1], evaluated at exposure [x]. *)
Definition linear_interpolation (x0 : Q) (d0 : Frame) (x1 : Q) (d1 : Frame) (x : Q)
  : Frame :=
  weighted_sum d0 ((x1 - x) / (x1 - x0)) d1 ((x - x0) / (x1 - x0)).

(** Two lists with the same elements, whatever their order and repetitions. *)
Definition same_elements (l1 l2 : list Q) : Prop := forall x, In x l1 <-> In x l2.

(** Two outcomes that are the same up to the representation of the pixels. *)
Definition outcome_eq (o1 o2 : outcome Frame) : Prop :=
  match o1, o2 with
  | Returns d1, Returns d2 => frame_eq d1 d2
  | Raises e1, Raises e2 => e1 = e2
  | Unmodelled l1, Unmodelled l2 => l1 = l2
  | _, _ => False
  end.

(** * Lemmas on numbers and arrays *)

Lemma Qltb_lt (x y : Q) : Qltb x y = true <-> (x < y)%Q.
Proof.
  unfold Qltb. rewrite negb_true_iff. split.
  - intros H. apply Qnot_le_lt. intros Hle.
    apply Qle_bool_iff in Hle. congruence.
  - intros H. destruct (Qle_bool y x) eqn:E; [|reflexivity].
    apply Qle_bool_iff in E. exfalso. exact (Qlt_not_le _ _ H E).
Qed.

Lemma Qltb_ge (x y : Q) : Qltb x y = false <-> (y <= x)%Q.
Proof.
  unfold Qltb. rewrite negb_false_iff. apply Qle_bool_iff.
Qed.

Lemma int_inject_Z (z : Z) : int (inject_Z z) = z.
Proof. unfold int. simpl. apply Z.quot_1_r. Qed.

Lemma int_of_integer (x : Q) (z : Z) : (x == inject_Z z)%Q -> int x = z.
Proof.
  destruct x as [a d]. unfold Qeq, int. simpl. intros H.
  rewrite Z.mul_1_r in H. subst a. apply Z.quot_mul. discriminate.
Qed.

Lemma int_floor (x : Q) :
  int x = if (0 <=? Qnum x)%Z then Qfloor x else (- Qfloor (- x))%Z.
Proof.
  destruct x as [a d]. unfold int, Qfloor, Qopp. cbn [Qnum Qden].
  destruct (Z.leb_spec 0 a) as [H|H].
  - apply Z.quot_div_nonneg; lia.
  - rewrite <- (Z.opp_involutive a) at 1. rewrite Z.quot_opp_l by discriminate.
    f_equal. apply Z.quot_div_nonneg; lia.
Qed.

Lemma int_Qeq (x y : Q) : (x == y)%Q -> int x = int y.
Proof.
  intros H. rewrite !int_floor.
  assert (Hs : (0 <=? Qnum x)%Z = (0 <=? Qnum y)%Z).
  { unfold Qeq in H. destruct (Z.leb_spec 0 (Qnum x)), (Z.leb_spec 0 (Qnum y));
      try reflexivity; exfalso; nia. }
  rewrite Hs. destruct (0 <=? Qnum y)%Z.
  - now rewrite H.
  - now rewrite H.
Qed.

Lemma np_contains_member (x : Q) (a : list Q) :
  np_contains x a = true <-> member x a.
Proof.
  unfold np_contains, member. rewrite existsb_exists. split.
  - intros [r [Hin Heq]]. exists r. split; [exact Hin|].
    apply Qeq_bool_iff in Heq. symmetry. exact Heq.
  - intros [r [Hin Heq]]. exists r. split; [exact Hin|].
    apply Qeq_bool_iff. symmetry. exact Heq.
Qed.

Lemma np_contains_not_member (x : Q) (a : list Q) :
  np_contains x a = false <-> ~ member x a.
Proof.
  rewrite <- np_contains_member. destruct (np_contains x a); split; congruence.
Qed.

Lemma min_of_nil_iff (a : list Q) : min_of a = None <-> a = [].
Proof.
  destruct a as [|x a']; simpl; [tauto|].
  destruct (min_of a'); split; discriminate.
Qed.

Lemma max_of_nil_iff (a : list Q) : max_of a = None <-> a = [].
Proof.
  destruct a as [|x a']; simpl; [tauto|].
  destruct (max_of a'); split; discriminate.
Qed.

Lemma min_of_spec (a : list Q) (m : Q) :
  min_of a = Some m -> In m a /\ forall x, In x a -> (m <= x)%Q.
Proof.
  revert m. induction a as [|y a' IH]; simpl; intros m H; [discriminate|].
  destruct (min_of a') as [m'|] eqn:E.
  - destruct (IH m' eq_refl) as [Hin Hle].
    destruct (Qle_bool y m') eqn:C; inversion H; subst m; clear H.
    + apply Qle_bool_iff in C. split; [now left|].
      intros x [->|Hx]; [apply Qle_refl|].
      eapply Qle_trans; [exact C|]. now apply Hle.
    + split; [now right|]. intros x [<-|Hx]; [|now apply Hle].
      apply Qlt_le_weak. apply Qltb_lt. unfold Qltb. now rewrite C.
  - apply min_of_nil_iff in E. subst a'. inversion H; subst m.
    split; [now left|]. intros x [->|[]]. apply Qle_refl.
Qed.

Lemma max_of_spec (a : list Q) (m : Q) :
  max_of a = Some m -> In m a /\ forall x, In x a -> (x <= m)%Q.
Proof.
  revert m. induction a as [|y a' IH]; simpl; intros m H; [discriminate|].
  destruct (max_of a') as [m'|] eqn:E.
  - destruct (IH m' eq_refl) as [Hin Hle].
    destruct (Qle_bool m' y) eqn:C; inversion H; subst m; clear H.
    + apply Qle_bool_iff in C. split; [now left|].
      intros x [->|Hx]; [apply Qle_refl|].
      eapply Qle_trans; [|exact C]. now apply Hle.
    + split; [now right|]. intros x [<-|Hx]; [|now apply Hle].
      apply Qlt_le_weak. apply Qltb_lt. unfold Qltb. now rewrite C.
  - apply max_of_nil_iff in E. subst a'. inversion H; subst m.
    split; [now left|]. intros x [->|[]]. apply Qle_refl.
Qed.

Lemma min_of_is_Some (a : list Q) (x : Q) : In x a -> exists m, min_of a = Some m.
Proof.
  intros Hin. destruct (min_of a) as [m|] eqn:E; [now exists m|].
  apply min_of_nil_iff in E. subst a. destruct Hin.
Qed.

Lemma max_of_is_Some (a : list Q) (x : Q) : In x a -> exists m, max_of a = Some m.
Proof.
  intros Hin. destruct (max_of a) as [m|] eqn:E; [now exists m|].
  apply max_of_nil_iff in E. subst a. destruct Hin.
Qed.

Lemma In_select_lt (a : list Q) (t x : Q) : In x (select_lt a t) <-> In x a /\ (x < t)%Q.
Proof. unfold select_lt. rewrite filter_In, Qltb_lt. tauto. Qed.

Lemma In_select_gt (a : list Q) (t x : Q) : In x (select_gt a t) <-> In x a /\ (t < x)%Q.
Proof. unfold select_gt. rewrite filter_In, Qltb_lt. tauto. Qed.

(** Addition of frames of one shape is pixelwise: no broadcasting happens. *)

Lemma broadcast2_same_length {A B : Type} (f : A -> A -> option B) (xs ys : list A) :
  length xs = length ys ->
  broadcast2 f xs ys = sequence_opt (map (fun p => f (fst p) (snd p)) (combine xs ys)).
Proof.
  intros H. unfold broadcast2, broadcast_len, stretch.
  rewrite <- H, Nat.eqb_refl. now rewrite Nat.eqb_refl.
Qed.

Lemma row_add_same_length (r1 r2 : list Q) :
  length r1 = length r2 ->
  broadcast2 (fun p q => Some (p + q)%Q) r1 r2 = Some (zip_with Qplus r1 r2).
Proof.
  intros H. rewrite broadcast2_same_length by exact H. clear H.
  revert r2. induction r1 as [|p r1 IH]; intros [|q r2]; cbn; try reflexivity.
  now rewrite IH.
Qed.

Lemma array_add_same_shape (d1 d2 : Frame) :
  same_shape d1 d2 ->
  array_add d1 d2 = Some (zip_with (zip_with Qplus) d1 d2).
Proof.
  intros H. unfold array_add.
  rewrite broadcast2_same_length by exact (Forall2_length _ _ _ H).
  induction H as [|r1 r2 d1 d2 Hr Hd IH]; cbn; [reflexivity|].
  rewrite row_add_same_length by exact Hr. now rewrite IH.
Qed.

Lemma same_shape_array_mul (d1 d2 : Frame) (a b : Q) :
  same_shape d1 d2 -> same_shape (array_mul d1 a) (array_mul d2 b).
Proof.
  unfold same_shape, array_mul.
  induction 1 as [|r1 r2 d1 d2 Hr Hd IH]; cbn; constructor; [|exact IH].
  now rewrite !length_map.
Qed.

Lemma zip_with_map_map {A B C D E : Type} (f : C -> D -> E) (g : A -> C) (h : B -> D)
    (l : list A) (k : list B) :
  zip_with f (map g l) (map h k) = zip_with (fun x y => f (g x) (h y)) l k.
Proof.
  revert k. induction l as [|x l IH]; intros [|y k]; cbn; try reflexivity.
  now rewrite IH.
Qed.

Lemma array_add_weighted (d1 d2 : Frame) (a b : Q) :
  same_shape d1 d2 ->
  array_add (array_mul d1 a) (array_mul d2 b) = Some (weighted_sum d1 a d2 b).
Proof.
  intros H. rewrite array_add_same_shape by now apply same_shape_array_mul.
  f_equal. unfold array_mul, weighted_sum. rewrite zip_with_map_map. clear H.
  revert d2. induction d1 as [|r1 d1 IH]; intros [|r2 d2]; cbn; try reflexivity.
  now rewrite zip_with_map_map, IH.
Qed.

Lemma weighted_sum_weights (d1 d2 : Frame) (a a' b b' : Q) :
  (a == a')%Q -> (b == b')%Q ->
  frame_eq (weighted_sum d1 a d2 b) (weighted_sum d1 a' d2 b').
Proof.
  intros Ha Hb. unfold frame_eq, weighted_sum.
  revert d2. induction d1 as [|r1 d1 IH]; intros [|r2 d2]; cbn; constructor; [|apply IH].
  revert r2. induction r1 as [|p r1 IHr]; intros [|q r2]; cbn; constructor; [|apply IHr].
  now rewrite Ha, Hb.
Qed.

(** Scaling: [d * t / m], as the code computes it, is [d * (t / m)]. *)
Lemma array_div_mul (d : Frame) (t m : Q) :
  frame_eq (array_div (array_mul d t) m) (array_mul d (t / m)).
Proof.
  unfold frame_eq, array_div, array_mul.
  induction d as [|r d IH]; cbn; constructor; [|exact IH].
  induction r as [|p r IHr]; cbn; constructor; [|exact IHr].
  unfold Qdiv. ring.
Qed.

Lemma row_eq_trans (r1 r2 r3 : list Q) :
  Forall2 Qeq r1 r2 -> Forall2 Qeq r2 r3 -> Forall2 Qeq r1 r3.
Proof.
  intros H. revert r3.
  induction H as [|p q r1 r2 Hpq Hrr IH]; intros r3 H23; inversion H23; subst;
    constructor; [|now apply IH].
  etransitivity; eassumption.
Qed.

Lemma frame_eq_trans (d1 d2 d3 : Frame) :
  frame_eq d1 d2 -> frame_eq d2 d3 -> frame_eq d1 d3.
Proof.
  unfold frame_eq. intros H. revert d3.
  induction H as [|r1 r2 d1 d2 Hr Hd IH]; intros d3 H23; inversion H23; subst;
    constructor; [|now apply IH].
  eapply row_eq_trans; eassumption.
Qed.

Lemma array_mul_scalar (d : Frame) (a b : Q) :
  (a == b)%Q -> frame_eq (array_mul d a) (array_mul d b).
Proof.
  intros Hab. unfold frame_eq, array_mul.
  induction d as [|r d IH]; cbn; constructor; [|exact IH].
  induction r as [|p r IHr]; cbn; constructor; [|exact IHr].
  now rewrite Hab.
Qed.

(** The bracketing references exist and are the nearest ones. *)

Lemma lower_bound_exists (refs : list Q) (t mn : Q) :
  min_of refs = Some mn -> (mn < t)%Q ->
  exists lb, max_of (select_lt refs t) = Some lb.
Proof.
  intros Hmn Hlt. apply (max_of_is_Some _ mn). apply In_select_lt.
  split; [now destruct (min_of_spec _ _ Hmn) | exact Hlt].
Qed.

Lemma upper_bound_exists (refs : list Q) (t mx : Q) :
  max_of refs = Some mx -> (t < mx)%Q ->
  exists ub, min_of (select_gt refs t) = Some ub.
Proof.
  intros Hmx Hlt. apply (min_of_is_Some _ mx). apply In_select_gt.
  split; [now destruct (max_of_spec _ _ Hmx) | exact Hlt].
Qed.

Lemma lower_bound_spec (refs : list Q) (t lb : Q) :
  max_of (select_lt refs t) = Some lb ->
  In lb refs /\ (lb < t)%Q /\ forall x, In x refs -> (x < t)%Q -> (x <= lb)%Q.
Proof.
  intros H. destruct (max_of_spec _ _ H) as [Hin Hle].
  apply In_select_lt in Hin. destruct Hin as [Hin Hlt].
  repeat split; try assumption.
  intros x Hx Hxt. apply Hle. now apply In_select_lt.
Qed.

Lemma upper_bound_spec (refs : list Q) (t ub : Q) :
  min_of (select_gt refs t) = Some ub ->
  In ub refs /\ (t < ub)%Q /\ forall x, In x refs -> (t < x)%Q -> (ub <= x)%Q.
Proof.
  intros H. destruct (min_of_spec _ _ H) as [Hin Hle].
  apply In_select_gt in Hin. destruct Hin as [Hin Hlt].
  repeat split; try assumption.
  intros x Hx Hxt. apply Hle. now apply In_select_gt.
Qed.

(** * Lemmas on the monad *)

Lemma bind_returns {A B : Type} (c : M A) (k : A -> M B) (w w' : World) (a : A)
    (r : World * outcome B) :
  c w = (w', Returns a) -> k a w' = r -> bind c k w = r.
Proof. intros Hc Hk. unfold bind. rewrite Hc. exact Hk. Qed.

Lemma bind_raises {A B : Type} (c : M A) (k : A -> M B) (w w' : World) (e : exn) :
  c w = (w', Raises e) -> bind c k w = (w', Raises e).
Proof. intros Hc. unfold bind. now rewrite Hc. Qed.

Lemma bind_ret_r {A : Type} (c : M A) (w : World) :
  bind c (fun a => ret a) w = c w.
Proof. unfold bind, ret. destruct (c w) as [w' [a|e|l]]; reflexivity. Qed.

Lemma bind_ext {A B : Type} (c : M A) (k1 k2 : A -> M B) (w : World) :
  (forall a w', k1 a w' = k2 a w') -> bind c k1 w = bind c k2 w.
Proof.
  intros H. unfold bind. destruct (c w) as [w' [a|e|l]]; [apply H | reflexivity..].
Qed.

Lemma np_min_returns (a : list Q) (m : Q) (w : World) :
  min_of a = Some m -> np_min a w = (w, Returns m).
Proof. intros H. unfold np_min. now rewrite H. Qed.

Lemma np_max_returns (a : list Q) (m : Q) (w : World) :
  max_of a = Some m -> np_max a w = (w, Returns m).
Proof. intros H. unfold np_max. now rewrite H. Qed.

Lemma np_divide_returns (x y : Q) (w : World) :
  ~ (y == 0)%Q -> np_divide x y w = (w, Returns (x / y)%Q).
Proof.
  intros H. unfold np_divide. destruct (Qeq_bool y 0) eqn:E; [|reflexivity].
  apply Qeq_bool_iff in E. contradiction.
Qed.

Lemma fits_getdata_returns (path : string) (w : World) (d : Frame) :
  files w !! path = Some d -> fits_getdata path w = (w, Returns d).
Proof. intros H. unfold fits_getdata. now rewrite H. Qed.

Lemma fits_getdata_loaded (path : string) (w : World) :
  fits_getdata path w = (w, loaded w path).
Proof. unfold fits_getdata, loaded. now destruct (files w !! path). Qed.

Lemma when_verbose (v : bool) (line : string) (w : World) :
  when v (print line) w = ((if v then printed w line else w), Returns tt).
Proof. now destruct v. Qed.

(** The frame rule, one primitive at a time. *)

Lemma preserves_pure {A : Type} (c : M A) :
  (forall w, fst (c w) = w) -> preserves c.
Proof.
  intros H w. rewrite H. repeat split. exists []. now rewrite app_nil_r.
Qed.

Lemma preserves_ret {A : Type} (a : A) : preserves (ret a).
Proof. now apply preserves_pure. Qed.

Lemma preserves_raise {A : Type} (e : exn) : preserves (@raise A e).
Proof. now apply preserves_pure. Qed.

Lemma preserves_unmodelled {A : Type} (l : limit) : preserves (@unmodelled A l).
Proof. now apply preserves_pure. Qed.

Lemma preserves_bind {A B : Type} (c : M A) (k : A -> M B) :
  preserves c -> (forall a, preserves (k a)) -> preserves (bind c k).
Proof.
  intros Hc Hk w. unfold bind. specialize (Hc w).
  destruct (c w) as [w' [a|e|l]]; cbn [fst] in Hc |- *; try exact Hc.
  destruct (Hk a w') as (H1 & H2 & H3 & H5 & [l2 H4]).
  destruct Hc as (G1 & G2 & G3 & G5 & [l1 G4]).
  repeat split; try congruence.
  exists (l1 ++ l2). rewrite H4, G4. now rewrite app_assoc.
Qed.

Lemma preserves_np_array (a : explist_arg) : preserves (np_array a).
Proof.
  apply preserves_pure. intros w. unfold np_array.
  destruct a as [|l]; [reflexivity|]. now destruct (heap w !! l).
Qed.

Lemma preserves_np_min (a : list Q) : preserves (np_min a).
Proof. unfold np_min. destruct (min_of a); [apply preserves_ret | apply preserves_raise]. Qed.

Lemma preserves_np_max (a : list Q) : preserves (np_max a).
Proof. unfold np_max. destruct (max_of a); [apply preserves_ret | apply preserves_raise]. Qed.

Lemma preserves_print (line : string) : preserves (print line).
Proof. intros w. cbn. repeat split. now exists [line]. Qed.

Lemma preserves_when (v : bool) (c : M unit) : preserves c -> preserves (when v c).
Proof. intros H. destruct v; [exact H | apply preserves_ret]. Qed.

Lemma preserves_fits_getdata (path : string) : preserves (fits_getdata path).
Proof.
  apply preserves_pure. intros w. unfold fits_getdata. now destruct (files w !! path).
Qed.

Lemma preserves_np_divide (x y : Q) : preserves (np_divide x y).
Proof.
  unfold np_divide. destruct (Qeq_bool y 0);
    [apply preserves_unmodelled | apply preserves_ret].
Qed.

Lemma preserves_np_array_divide (ty : dtype) (d : Frame) (y : Q) :
  preserves (np_array_divide ty d y).
Proof. now apply preserves_pure. Qed.

Lemma preserves_np_multiply (ty : dtype) (d : Frame) (x : pynum) :
  preserves (np_multiply ty d x).
Proof. now apply preserves_pure. Qed.

Lemma preserves_fits_dtype (path : string) : preserves (fits_dtype path).
Proof. now apply preserves_pure. Qed.

Lemma preserves_np_array_add (d1 d2 : Frame) : preserves (np_array_add d1 d2).
Proof.
  unfold np_array_add. destruct (array_add d1 d2);
    [apply preserves_ret | apply preserves_raise].
Qed.

Create HintDb frame discriminated.
#[local] Hint Resolve preserves_ret preserves_raise preserves_unmodelled
  preserves_np_array preserves_np_min preserves_np_max preserves_print
  preserves_when preserves_fits_getdata preserves_np_divide
  preserves_np_array_divide preserves_np_array_add preserves_np_multiply
  preserves_fits_dtype : frame.

Ltac frame_step :=
  match goal with
  | |- preserves (bind _ _) => apply preserves_bind; [| intros ?]
  | |- preserves (if ?b then _ else _) => destruct b
  | |- preserves _ => solve [auto with frame]
  end.

Lemma preserves_choose_dark (exptime : pynum) (dark_dir suffix : string)
    (explist : explist_arg) (verbose : bool) :
  preserves (choose_dark exptime dark_dir suffix explist verbose).
Proof. unfold choose_dark. cbv zeta. repeat frame_step. Qed.

(** * The branches of choose_dark

    One lemma per path through the function: under the conditions that select
    the path, the call is the residual program of that path. *)

Ltac run_bind :=
  repeat (eapply bind_returns;
          [ first [ eassumption
                  | apply np_min_returns; eassumption
                  | apply np_max_returns; eassumption ]
          | cbv beta zeta ]).

Section Branches.
Variables (exptime : pynum) (dark_dir suffix : string).
Variables (explist : explist_arg) (verbose : bool).
Variables (w : World) (refs : list Q).
Hypothesis Harr : np_array explist w = (w, Returns refs).

Lemma branch_exact :
  np_contains (inject_Z (int exptime)) refs = true ->
  choose_dark exptime dark_dir suffix explist verbose w =
    ((if verbose
      then printed w ("Using " +:+ os_path_join dark_dir (dark_name (int exptime) suffix))
      else w),
     loaded w (os_path_join dark_dir (dark_name (int exptime) suffix))).
Proof.
  intros Hc. unfold choose_dark. run_bind. rewrite Hc.
  eapply bind_returns; [apply when_verbose|].
  etransitivity; [apply bind_ret_r|].
  rewrite fits_getdata_loaded. now destruct verbose.
Qed.

Lemma branch_empty :
  refs = [] ->
  choose_dark exptime dark_dir suffix explist verbose w = (w, Raises ValueError_zero_size).
Proof.
  intros ->. unfold choose_dark. run_bind. reflexivity.
Qed.

Lemma branch_below (mn : Q) :
  np_contains (inject_Z (int exptime)) refs = false ->
  min_of refs = Some mn ->
  (exptime < mn)%Q ->
  let darkfile := os_path_join dark_dir (dark_name (int mn) suffix) in
  choose_dark exptime dark_dir suffix explist verbose w =
    bind (fits_getdata darkfile)
         (fun d => bind (fits_dtype darkfile)
         (fun ty => bind (np_multiply ty d exptime)
         (fun prod => np_array_divide (fst prod) (snd prod) mn))) w.
Proof.
  intros Hc Hmn Hlt. cbv zeta. unfold choose_dark. run_bind.
  rewrite Hc. run_bind. apply Qltb_lt in Hlt. rewrite Hlt. run_bind.
  apply bind_ext. intros d w1. apply bind_ext. intros ty w2.
  apply bind_ext. intros prod w3. run_bind. apply bind_ret_r.
Qed.

Lemma branch_between (mn mx lb ub : Q) :
  np_contains (inject_Z (int exptime)) refs = false ->
  min_of refs = Some mn ->
  max_of refs = Some mx ->
  (mn < exptime)%Q -> (exptime < mx)%Q ->
  max_of (select_lt refs exptime) = Some lb ->
  min_of (select_gt refs exptime) = Some ub ->
  let weight_lower := ((exptime - lb) / (ub - lb))%Q in
  let weight_upper := ((ub - exptime) / (ub - lb))%Q in
  let darkfile1 := os_path_join dark_dir (dark_name (int lb) suffix) in
  let darkfile2 := os_path_join dark_dir (dark_name (int ub) suffix) in
  choose_dark exptime dark_dir suffix explist verbose w =
    bind (when verbose (print ("Averaging " +:+ darkfile1 +:+ " & " +:+ darkfile2)))
         (fun _ => bind (fits_getdata darkfile1)
         (fun dark1 => bind (fits_getdata darkfile2)
         (fun dark2 => np_array_add (array_mul dark1 weight_lower)
                                    (array_mul dark2 weight_upper)))) w.
Proof.
  intros Hc Hmn Hmx Hlo Hhi Hlb Hub. cbv zeta.
  assert (Hd : ~ (ub - lb == 0)%Q).
  { apply max_of_spec in Hlb. apply min_of_spec in Hub.
    destruct Hlb as [Hlb _], Hub as [Hub _].
    apply In_select_lt in Hlb. apply In_select_gt in Hub.
    destruct Hlb as [_ Hlb], Hub as [_ Hub]. intros E.
    assert (Heq : (ub == lb)%Q) by (rewrite <- (Qplus_0_l lb), <- E; ring).
    rewrite Heq in Hub. exact (Qlt_irrefl _ (Qlt_trans _ _ _ Hlb Hub)). }
  unfold choose_dark. run_bind. rewrite Hc. run_bind.
  assert (H1 : Qltb exptime mn = false) by (apply Qltb_ge; now apply Qlt_le_weak).
  apply Qltb_lt in Hlo, Hhi. rewrite H1. run_bind. rewrite Hlo, Hhi. cbn [andb].
  run_bind.
  eapply bind_returns; [now apply np_divide_returns|]. cbv beta.
  eapply bind_returns; [now apply np_divide_returns|]. cbv beta.
  apply bind_ext. intros _ w1. apply bind_ext. intros d1 w2.
  apply bind_ext. intros d2 w3. apply bind_ret_r.
Qed.

Lemma branch_above (mn mx : Q) :
  np_contains (inject_Z (int exptime)) refs = false ->
  min_of refs = Some mn ->
  max_of refs = Some mx ->
  (mx < exptime)%Q ->
  let darkfile := os_path_join dark_dir (dark_name (int mx) suffix) in
  choose_dark exptime dark_dir suffix explist verbose w =
    bind (when verbose (print ("Using " +:+ darkfile)))
         (fun _ => bind (fits_getdata darkfile)
         (fun d => bind (fits_dtype darkfile)
         (fun ty => bind (np_multiply ty d exptime)
         (fun prod => np_array_divide (fst prod) (snd prod) mx)))) w.
Proof.
  intros Hc Hmn Hmx Hgt. cbv zeta.
  assert (Hle : (mn <= mx)%Q).
  { destruct (min_of_spec _ _ Hmn) as [_ H]. apply H.
    now destruct (max_of_spec _ _ Hmx). }
  assert (H1 : Qltb exptime mn = false).
  { apply Qltb_ge. eapply Qle_trans; [exact Hle|]. now apply Qlt_le_weak. }
  assert (H2 : Qltb exptime mx = false) by (apply Qltb_ge; now apply Qlt_le_weak).
  apply Qltb_lt in Hgt.
  unfold choose_dark. run_bind. rewrite Hc. run_bind.
  rewrite H1. run_bind. rewrite H2, andb_false_r. run_bind. rewrite Hgt. run_bind.
  apply bind_ext. intros _ w1. apply bind_ext. intros d w2.
  apply bind_ext. intros ty w3. apply bind_ext. intros prod w4. run_bind.
  apply bind_ret_r.
Qed.

Lemma branch_unbound (mn mx : Q) :
  np_contains (inject_Z (int exptime)) refs = false ->
  min_of refs = Some mn ->
  max_of refs = Some mx ->
  (exptime == mn)%Q \/ (exptime == mx)%Q ->
  choose_dark exptime dark_dir suffix explist verbose w
    = (w, Raises (UnboundLocalError "dark")).
Proof.
  intros Hc Hmn Hmx Heq.
  assert (Hle : (mn <= mx)%Q).
  { destruct (min_of_spec _ _ Hmn) as [_ H]. apply H.
    now destruct (max_of_spec _ _ Hmx). }
  assert (H1 : Qltb exptime mn = false).
  { apply Qltb_ge. destruct Heq as [E|E]; rewrite E;
      [apply Qle_refl | exact Hle]. }
  assert (H2 : (Qltb mn exptime && Qltb exptime mx)%bool = false).
  { destruct Heq as [E|E].
    - apply andb_false_iff. left. apply Qltb_ge. rewrite E. apply Qle_refl.
    - apply andb_false_iff. right. apply Qltb_ge. rewrite E. apply Qle_refl. }
  assert (H3 : Qltb mx exptime = false).
  { apply Qltb_ge. destruct Heq as [E|E]; rewrite E;
      [exact Hle | apply Qle_refl]. }
  unfold choose_dark. run_bind. rewrite Hc. run_bind.
  rewrite H1. run_bind. rewrite H2. run_bind. rewrite H3. reflexivity.
Qed.

End Branches.

(** The interpolation path when both files are there and of one shape. *)
Lemma between_result (exptime : pynum) (dark_dir suffix : string) (explist : explist_arg)
    (verbose : bool) (w : World) (refs : list Q) (mn mx lb ub : Q) (d1 d2 : Frame) :
  np_array explist w = (w, Returns refs) ->
  np_contains (inject_Z (int exptime)) refs = false ->
  min_of refs = Some mn ->
  max_of refs = Some mx ->
  (mn < exptime)%Q -> (exptime < mx)%Q ->
  max_of (select_lt refs exptime) = Some lb ->
  min_of (select_gt refs exptime) = Some ub ->
  let darkfile1 := os_path_join dark_dir (dark_name (int lb) suffix) in
  let darkfile2 := os_path_join dark_dir (dark_name (int ub) suffix) in
  files w !! darkfile1 = Some d1 ->
  files w !! darkfile2 = Some d2 ->
  same_shape d1 d2 ->
  choose_dark exptime dark_dir suffix explist verbose w =
    ((if verbose
      then printed w ("Averaging " +:+ darkfile1 +:+ " & " +:+ darkfile2)
      else w),
     Returns (weighted_sum d1 ((exptime - lb) / (ub - lb)) d2 ((ub - exptime) / (ub - lb)))).
Proof.
  intros Harr Hc Hmn Hmx Hlo Hhi Hlb Hub f1 f2 H1 H2 Hs.
  rewrite (branch_between _ _ _ _ _ _ _ Harr mn mx lb ub) by assumption.
  cbv zeta. eapply bind_returns; [apply when_verbose|]. cbv beta.
  eapply bind_returns;
    [apply fits_getdata_returns; destruct verbose; exact H1|]. cbv beta.
  eapply bind_returns;
    [apply fits_getdata_returns; destruct verbose; exact H2|]. cbv beta.
  unfold np_array_add. now rewrite array_add_weighted by exact Hs.
Qed.

(** Paths that assign [dark] never end in the unbound-local error. *)
Lemma assigns_bind {A B : Type} (c : M A) (k : A -> M B) :
  assigns c -> (forall a, assigns (k a)) -> assigns (bind c k).
Proof.
  intros Hc Hk w name. unfold bind. specialize (Hc w name).
  destruct (c w) as [w' [a|e|l]]; cbn [snd] in Hc |- *;
    [apply Hk | | discriminate].
  intros E. apply Hc. congruence.
Qed.

Lemma assigns_when_print (v : bool) (line : string) : assigns (when v (print line)).
Proof. intros w name. now destruct v. Qed.

Lemma assigns_fits_getdata (path : string) : assigns (fits_getdata path).
Proof. intros w name. unfold fits_getdata. now destruct (files w !! path). Qed.

Lemma true_divide_no_raise (ty : dtype) (d : Frame) (y : Q) (e : exn) :
  true_divide ty d y <> Raises e.
Proof.
  unfold true_divide. destruct (Qeq_bool y 0); [destruct (has_pixels d); discriminate|].
  cbv zeta. destruct (within DBL_MAX _); [|discriminate].
  destruct ty as [lo hi|fmax]; [discriminate|].
  destruct (within fmax _); discriminate.
Qed.

Lemma multiply_scalar_raises (ty : dtype) (d : Frame) (x : pynum) (e : exn) :
  multiply_scalar ty d x = Raises e -> e = OverflowError.
Proof.
  unfold multiply_scalar, float_times, float_result.
  destruct ty as [lo hi|fmax], x as [z|q];
    repeat match goal with
           | |- context [if ?b then _ else _] => destruct b
           end; intros H; inversion H; reflexivity.
Qed.

Lemma assigns_np_array_divide (ty : dtype) (d : Frame) (y : Q) :
  assigns (np_array_divide ty d y).
Proof. intros w name. apply true_divide_no_raise. Qed.

Lemma assigns_np_multiply (ty : dtype) (d : Frame) (x : pynum) :
  assigns (np_multiply ty d x).
Proof.
  intros w name H. cbn in H. apply multiply_scalar_raises in H. discriminate.
Qed.

Lemma assigns_fits_dtype (path : string) : assigns (fits_dtype path).
Proof. intros w name. discriminate. Qed.

Lemma assigns_scaling (path : string) (x : pynum) (m : Q) :
  assigns (bind (fits_getdata path)
          (fun d => bind (fits_dtype path)
          (fun ty => bind (np_multiply ty d x)
          (fun prod => np_array_divide (fst prod) (snd prod) m)))).
Proof.
  apply assigns_bind; [apply assigns_fits_getdata|]. intros d.
  apply assigns_bind; [apply assigns_fits_dtype|]. intros ty.
  apply assigns_bind; [apply assigns_np_multiply|]. intros prod.
  apply assigns_np_array_divide.
Qed.

Lemma assigns_np_array_add (d1 d2 : Frame) : assigns (np_array_add d1 d2).
Proof.
  intros w name. unfold np_array_add. destruct (array_add d1 d2); discriminate.
Qed.

(** The only way to the unbound local: a non-empty library, no exact match,
    and a target that equals the minimum or the maximum reference. *)
Lemma unbound_inv (exptime : pynum) (dark_dir suffix : string) (explist : explist_arg)
    (verbose : bool) (w : World) (refs : list Q) (name : string) :
  np_array explist w = (w, Returns refs) ->
  snd (choose_dark exptime dark_dir suffix explist verbose w)
    = Raises (UnboundLocalError name) ->
  np_contains (inject_Z (int exptime)) refs = false /\
  exists mn mx, min_of refs = Some mn /\ max_of refs = Some mx /\
                ((exptime == mn)%Q \/ (exptime == mx)%Q).
Proof.
  intros Harr Hu.
  destruct (np_contains (inject_Z (int exptime)) refs) eqn:Hc.
  { rewrite (branch_exact _ _ _ _ _ _ _ Harr Hc) in Hu. cbn [snd] in Hu.
    unfold loaded in Hu. destruct (files w !! _); discriminate. }
  split; [reflexivity|].
  destruct (min_of refs) as [mn|] eqn:Hmn.
  2:{ apply min_of_nil_iff in Hmn.
      rewrite (branch_empty _ _ _ _ _ _ _ Harr Hmn) in Hu. discriminate. }
  destruct (max_of refs) as [mx|] eqn:Hmx.
  2:{ apply max_of_nil_iff in Hmx. subst refs. discriminate. }
  exists mn, mx. repeat split.
  destruct (Q_dec exptime mn) as [[Hlt|Hgt]|Heq]; [| |now left].
  { exfalso. rewrite (branch_below _ _ _ _ _ _ _ Harr mn Hc Hmn Hlt) in Hu.
    revert Hu. apply assigns_scaling. }
  destruct (Q_dec exptime mx) as [[Hlt|Hgt']|Heq]; [| |now right].
  - exfalso.
    destruct (lower_bound_exists _ _ _ Hmn Hgt) as [lb Hlb].
    destruct (upper_bound_exists _ _ _ Hmx Hlt) as [ub Hub].
    rewrite (branch_between _ _ _ _ _ _ _ Harr mn mx lb ub Hc Hmn Hmx Hgt Hlt Hlb Hub) in Hu.
    revert Hu. apply assigns_bind; [apply assigns_when_print|]. intros _.
    apply assigns_bind; [apply assigns_fits_getdata|]. intros d1.
    apply assigns_bind; [apply assigns_fits_getdata|]. intros d2.
    apply assigns_np_array_add.
  - exfalso.
    rewrite (branch_above _ _ _ _ _ _ _ Harr mn mx Hc Hmn Hmx Hgt') in Hu.
    revert Hu. apply assigns_bind; [apply assigns_when_print|]. intros _.
    apply assigns_scaling.
Qed.

(** * The scaling arithmetic *)

Lemma row_eq_refl (r : list Q) : Forall2 Qeq r r.
Proof. induction r; constructor; [reflexivity | assumption]. Qed.

Lemma frame_eq_refl (d : Frame) : frame_eq d d.
Proof. unfold frame_eq. induction d; constructor; [apply row_eq_refl | assumption]. Qed.

Lemma below_eval (w : World) (path : string) (t : pynum) (m : Q) :
  bind (fits_getdata path)
       (fun d => bind (fits_dtype path)
       (fun ty => bind (np_multiply ty d t)
       (fun prod => np_array_divide (fst prod) (snd prod) m))) w
    = (w, scaled w path t m).
Proof.
  unfold bind, fits_getdata, fits_dtype, np_multiply, np_array_divide, scaled.
  destruct (files w !! path) as [d|]; [|reflexivity].
  now destruct (multiply_scalar (dtype_of w path) d t) as [prod|e|l].
Qed.

Lemma scaled_printed (v : bool) (line : string) (w : World) (path : string)
    (t : pynum) (m : Q) :
  scaled (if v then printed w line else w) path t m = scaled w path t m.
Proof. now destruct v. Qed.

Lemma scaled_raises (w : World) (path : string) (t : pynum) (m : Q) (e : exn) :
  scaled w path t m = Raises e ->
  (files w !! path = None /\ e = FileNotFoundError path) \/ e = OverflowError.
Proof.
  unfold scaled. destruct (files w !! path) as [d|].
  - destruct (multiply_scalar _ d t) as [prod|e'|l] eqn:E; intros H.
    + now apply true_divide_no_raise in H.
    + inversion H; subst e'. right. now apply multiply_scalar_raises in E.
    + discriminate.
  - intros H. inversion H. now left.
Qed.

Lemma above_eval (v : bool) (line : string) (w : World) (path : string)
    (t : pynum) (m : Q) :
  bind (when v (print line))
       (fun _ => bind (fits_getdata path)
       (fun d => bind (fits_dtype path)
       (fun ty => bind (np_multiply ty d t)
       (fun prod => np_array_divide (fst prod) (snd prod) m)))) w
    = ((if v then printed w line else w), scaled w path t m).
Proof.
  eapply bind_returns; [apply when_verbose|]. cbv beta.
  now rewrite below_eval, scaled_printed.
Qed.

Lemma between_eval (v : bool) (line : string) (w : World) (path1 path2 : string)
    (a b : Q) :
  bind (when v (print line))
       (fun _ => bind (fits_getdata path1)
       (fun dark1 => bind (fits_getdata path2)
       (fun dark2 => np_array_add (array_mul dark1 a) (array_mul dark2 b)))) w
    = ((if v then printed w line else w), averaged w path1 path2 a b).
Proof.
  destruct v;
    unfold bind, when, print, fits_getdata, np_array_add, averaged, raise, ret, printed;
    cbn [files];
    (destruct (files w !! path1) as [d1|]; [|reflexivity]); cbn [files];
    (destruct (files w !! path2) as [d2|]; [|reflexivity]); cbn [files];
    now destruct (array_add _ _).
Qed.

Lemma in_range_Qeq (fmax p q : Q) : (p == q)%Q -> in_range fmax p -> in_range fmax q.
Proof. unfold in_range. intros E H. now rewrite <- E. Qed.

Lemma within_all_pixels (fmax : Q) (d : Frame) :
  within fmax d = true <-> all_pixels (in_range fmax) d.
Proof.
  unfold within, all_pixels, in_range.
  induction d as [|r d IH]; cbn; [split; [constructor | reflexivity]|].
  rewrite andb_true_iff, IH. clear IH.
  assert (Hr : forallb (fun p => Qle_bool (Qabs p) fmax) r = true
               <-> Forall (fun p => (Qabs p <= fmax)%Q) r).
  { induction r as [|p r IHr]; cbn; [split; [constructor | reflexivity]|].
    rewrite andb_true_iff, IHr, Qle_bool_iff. split.
    - intros [H1 H2]. now constructor.
    - intros H. inversion H; subst. now split. }
  rewrite Hr. split.
  - intros [H1 H2]. now constructor.
  - intros H. inversion H; subst. now split.
Qed.

Lemma all_pixels_map (P : Q -> Prop) (f : Q -> Q) (d : Frame) :
  all_pixels P (map (map f) d) <-> all_pixels (fun p => P (f p)) d.
Proof.
  unfold all_pixels. induction d as [|r d IH]; cbn.
  - split; constructor.
  - split; intros H; inversion H; subst; constructor;
      try (now apply IH); now apply List.Forall_map.
Qed.

Lemma all_pixels_frame_eq (P : Q -> Prop) (d d' : Frame) :
  (forall p q, (p == q)%Q -> P p -> P q) ->
  frame_eq d d' -> all_pixels P d -> all_pixels P d'.
Proof.
  intros HP. unfold frame_eq, all_pixels.
  induction 1 as [|r r' d d' Hr Hd IH]; intros H; inversion H; subst;
    constructor; [|now apply IH].
  clear - HP Hr H2. induction Hr as [|p q r r' Hpq Hrr IHr]; inversion H2; subst;
    constructor; [now apply (HP p q) | now apply IHr].
Qed.

Lemma within_frame_eq (fmax : Q) (d d' : Frame) :
  frame_eq d d' -> within fmax d = within fmax d'.
Proof.
  intros H.
  assert (Hs : frame_eq d' d).
  { clear - H. unfold frame_eq in *.
    induction H as [|r r' d d' Hr Hd IH]; constructor; [|exact IH].
    clear - Hr. induction Hr; constructor; [now symmetry | assumption]. }
  destruct (within fmax d) eqn:E1, (within fmax d') eqn:E2; try reflexivity.
  - apply within_all_pixels in E1.
    apply (all_pixels_frame_eq _ _ _ (in_range_Qeq fmax) H), within_all_pixels in E1.
    congruence.
  - apply within_all_pixels in E2.
    apply (all_pixels_frame_eq _ _ _ (in_range_Qeq fmax) Hs), within_all_pixels in E2.
    congruence.
Qed.

Lemma array_div_frame_eq (d d' : Frame) (a : Q) :
  frame_eq d d' -> frame_eq (array_div d a) (array_div d' a).
Proof.
  unfold frame_eq, array_div.
  induction 1 as [|r r' d d' Hr Hd IH]; cbn; constructor; [|exact IH].
  induction Hr as [|p q r r' Hpq Hrr IHr]; cbn; constructor; [|exact IHr].
  now rewrite Hpq.
Qed.

Lemma wrap_in_range (lo hi z : Z) : (lo <= z <= hi)%Z -> wrap lo hi z = z.
Proof. intros H. unfold wrap. rewrite Z.mod_small; lia. Qed.

(** Where the products are representable, [array * x] is the exact product. *)
Lemma multiply_scalar_exact (ty : dtype) (d : Frame) (x : pynum) :
  product_representable ty d x ->
  exists prod,
    multiply_scalar ty d x = Returns (product_type ty x, prod) /\
    frame_eq prod (array_mul d x).
Proof.
  unfold product_representable, multiply_scalar, product_type.
  destruct ty as [lo hi|fmax], x as [z|q]; cbn [num_value].
  - intros [[Hlo Hhi] Hp].
    apply Z.leb_le in Hlo. apply Z.leb_le in Hhi. rewrite Hlo, Hhi. cbn [andb].
    eexists. split; [reflexivity|].
    unfold frame_eq, array_mul, all_pixels in *.
    induction Hp as [|r d Hr Hd IH]; cbn; constructor; [|exact IH].
    clear - Hr. induction Hr as [|p r [Hi Hb] Hr IHr]; cbn; constructor; [|exact IHr].
    rewrite wrap_in_range by exact Hb. rewrite inject_Z_mult.
    unfold is_integer in Hi. now rewrite Hi.
  - intros Hp. unfold float_result.
    apply (all_pixels_map (in_range DBL_MAX) (fun p => (p * q)%Q)) in Hp.
    apply within_all_pixels in Hp. unfold array_mul. rewrite Hp.
    eexists. split; [reflexivity | apply frame_eq_refl].
  - intros (Hd & Hf & Hp). unfold float_times, float_result.
    apply Qle_bool_iff in Hd. apply Qle_bool_iff in Hf. rewrite Hd, Hf.
    apply (all_pixels_map (in_range fmax) (fun p => (p * inject_Z z)%Q)) in Hp.
    apply within_all_pixels in Hp. unfold array_mul. rewrite Hp.
    eexists. split; [reflexivity | apply frame_eq_refl].
  - intros (Hd & Hf & Hp). unfold float_times, float_result.
    apply Qle_bool_iff in Hf. rewrite Hf.
    apply (all_pixels_map (in_range fmax) (fun p => (p * q)%Q)) in Hp.
    apply within_all_pixels in Hp. unfold array_mul. rewrite Hp.
    eexists. split; [reflexivity | apply frame_eq_refl].
Qed.

(** Where the quotients are representable too, the scaling path returns the
    stored frame times [x / m]. *)
Lemma scaled_exact (w : World) (path : string) (x : pynum) (m : Q) (d : Frame) :
  files w !! path = Some d ->
  ~ (m == 0)%Q ->
  product_representable (dtype_of w path) d x ->
  quotient_representable (dtype_of w path) d x m ->
  exists dark,
    scaled w path x m = Returns dark /\ frame_eq dark (array_mul d (x / m)).
Proof.
  intros Hd Hnz Hp [Hq1 Hq2]. unfold scaled. rewrite Hd.
  destruct (multiply_scalar_exact _ _ _ Hp) as (prod & -> & Hprod).
  cbn [fst snd]. unfold true_divide.
  destruct (Qeq_bool m 0) eqn:E; [apply Qeq_bool_iff in E; contradiction|].
  cbv zeta.
  assert (Hquot : frame_eq (array_div prod m) (array_div (array_mul d x) m))
    by now apply array_div_frame_eq.
  assert (Hin : forall fmax, all_pixels (fun p => in_range fmax (p * x / m)) d ->
                             within fmax (array_div prod m) = true).
  { intros fmax H. rewrite (within_frame_eq _ _ _ Hquot).
    apply within_all_pixels. unfold array_div, array_mul.
    rewrite map_map.
    assert (Hmm : map (fun r => map (fun p => (p / m)%Q) (map (fun p => (p * x)%Q) r)) d
                  = map (map (fun p => (p * x / m)%Q)) d).
    { apply map_ext. intros r. now rewrite map_map. }
    rewrite Hmm.
    now apply (all_pixels_map (in_range fmax) (fun p => (p * x / m)%Q)). }
  rewrite (Hin DBL_MAX Hq1).
  exists (array_div prod m).
  assert (Hres : frame_eq (array_div prod m) (array_mul d (x / m))).
  { eapply frame_eq_trans; [exact Hquot | apply array_div_mul]. }
  destruct (product_type (dtype_of w path) x) as [lo hi|fmax];
    [now split|]. rewrite (Hin fmax Hq2). now split.
Qed.

(** * The claims *)

(** C10.  A call of [choose_dark] mutates none of the caller's inputs: the
    list object passed as [explist], every other list the caller holds and
    the shared default list have the same elements after the call as before,
    and the files on disk, values and element types, are the same (nothing is
    written).  Only the printed output may grow. *)
Theorem choose_dark_no_mutation (exptime : pynum) (dark_dir suffix : string)
    (explist : explist_arg) (verbose : bool) (w : World) :
  let w' := fst (choose_dark exptime dark_dir suffix explist verbose w) in
  fn_defaults w' = fn_defaults w /\
  heap w' = heap w /\
  (forall l : nat, heap w' !! l = heap w !! l) /\
  files w' = files w /\
  dtypes w' = dtypes w /\
  exists lines, stdout w' = stdout w ++ lines.
Proof.
  destruct (preserves_choose_dark exptime dark_dir suffix explist verbose w)
    as (H1 & H2 & H3 & H4 & H5).
  cbv zeta. repeat split; try assumption.
  intros l. now rewrite H2.
Qed.

(** C2.  When the truncation of the target exposure is a reference exposure,
    [choose_dark] loads the one file [<dark_dir>/dark_<int(exptime)>s_<suffix>.fits]
    (the path that [os.path.join] builds) and returns its pixel array as it is
    stored: no scaling, no interpolation. *)
Theorem choose_dark_exact_match (exptime : pynum) (dark_dir suffix : string)
    (explist : explist_arg) (verbose : bool) (w : World) (refs : list Q) :
  np_array explist w = (w, Returns refs) ->
  member (inject_Z (int exptime)) refs ->
  let darkfile := os_path_join dark_dir (dark_name (int exptime) suffix) in
  (dark_dir <> "" -> endswith_sep dark_dir = false ->
   darkfile = dark_dir +:+ "/" +:+ "dark_" +:+ str (int exptime) +:+ "s_" +:+ suffix +:+ ".fits") /\
  choose_dark exptime dark_dir suffix explist verbose w =
    ((if verbose then printed w ("Using " +:+ darkfile) else w), loaded w darkfile) /\
  (forall d, files w !! darkfile = Some d ->
     snd (choose_dark exptime dark_dir suffix explist verbose w) = Returns d).
Proof.
  intros Harr Hm darkfile. apply np_contains_member in Hm.
  pose proof (branch_exact exptime dark_dir suffix explist verbose w refs Harr Hm) as Hcall.
  split; [|split].
  - intros Hne Hend. subst darkfile. unfold os_path_join, dark_name.
    apply String.eqb_neq in Hne. cbn [String.app startswith_sep Ascii.eqb].
    cbn. now rewrite Hne, Hend.
  - exact Hcall.
  - intros d Hd. rewrite Hcall. cbn [snd]. unfold loaded. fold darkfile. now rewrite Hd.
Qed.

Lemma choose_dark_exact_match_witness :
  snd (choose_dark (PyInt 30) "darks" "medcombine_sub" Omitted true sample_world)
    = Returns (sample_frame 30) /\
  stdout (fst (choose_dark (PyInt 30) "darks" "medcombine_sub" Omitted true sample_world))
    = ["Using darks/dark_30s_medcombine_sub.fits"].
Proof.
  assert (Hm : member (inject_Z (int 30)) DEFAULT_EXPLIST).
  { exists 30%Q. split; [cbn; tauto | reflexivity]. }
  destruct (choose_dark_exact_match (PyInt 30) "darks" "medcombine_sub" Omitted true
              sample_world DEFAULT_EXPLIST eq_refl Hm) as (_ & Hcall & Hret).
  split.
  - apply Hret. vm_compute. reflexivity.
  - rewrite Hcall. vm_compute. reflexivity.
Defined.

(** C8.  With an empty list of reference exposures every call fails: the
    membership test is false, and the minimum of the zero-size array raises
    before any file is read or any array is returned. *)
Theorem choose_dark_empty_explist (exptime : pynum) (dark_dir suffix : string)
    (explist : explist_arg) (verbose : bool) (w : World) :
  np_array explist w = (w, Returns []) ->
  choose_dark exptime dark_dir suffix explist verbose w
    = (w, Raises ValueError_zero_size).
Proof.
  intros Harr.
  exact (branch_empty exptime dark_dir suffix explist verbose w [] Harr eq_refl).
Qed.

Lemma choose_dark_empty_explist_witness :
  choose_dark (PyInt 30) "darks" "medcombine_sub" (Passed 0) true empty_library_world
    = (empty_library_world, Raises ValueError_zero_size).
Proof.
  apply (choose_dark_empty_explist (PyInt 30) "darks" "medcombine_sub" (Passed 0) true
           empty_library_world).
  vm_compute. reflexivity.
Defined.

(** C5 (the code departs from it).  On the below-minimum path nothing is
    printed, whatever the verbosity flag: with [verbose] true the output after
    the call is the output before it.  The three other paths print one line
    (see C1, C2, C4). *)
Theorem choose_dark_below_min_prints_nothing (exptime : pynum) (dark_dir suffix : string)
    (explist : explist_arg) (w : World) (refs : list Q) (mn : Q) :
  np_array explist w = (w, Returns refs) ->
  ~ member (inject_Z (int exptime)) refs ->
  min_of refs = Some mn ->
  (exptime < mn)%Q ->
  stdout (fst (choose_dark exptime dark_dir suffix explist true w)) = stdout w.
Proof.
  intros Harr Hm Hmn Hlt. apply np_contains_not_member in Hm.
  rewrite (branch_below _ _ _ _ _ _ _ Harr mn Hm Hmn Hlt).
  cbv zeta. now rewrite below_eval.
Qed.

Lemma choose_dark_below_min_prints_nothing_witness :
  stdout (fst (choose_dark (PyInt 2) "darks" "medcombine_sub" Omitted true sample_world)) = [].
Proof.
  apply (choose_dark_below_min_prints_nothing (PyInt 2) "darks" "medcombine_sub" Omitted
           sample_world DEFAULT_EXPLIST 5 eq_refl).
  - apply np_contains_not_member. vm_compute. reflexivity.
  - vm_compute. reflexivity.
  - reflexivity.
Defined.



Lemma float64_representable (d : Frame) (x : pynum) (m : Q) :
  within DBL_MAX [[x : Q]] = true ->
  within DBL_MAX (array_mul d x) = true ->
  within DBL_MAX (array_div (array_mul d x) m) = true ->
  product_representable float64 d x /\ quotient_representable float64 d x m.
Proof.
  intros Hx Hp Hq.
  apply within_all_pixels in Hx, Hp, Hq.
  assert (Hx' : in_range DBL_MAX x).
  { inversion Hx as [|r l Hr _]; subst. now inversion Hr. }
  apply (all_pixels_map (in_range DBL_MAX) (fun p => (p * x)%Q)) in Hp.
  apply (all_pixels_map (in_range DBL_MAX) (fun p => (p / m)%Q)) in Hq.
  apply (all_pixels_map (fun p => in_range DBL_MAX (p / m)) (fun p => (p * x)%Q)) in Hq.
  split.
  - unfold product_representable, float64. now destruct x.
  - unfold quotient_representable, product_type, float64. now destruct x.
Qed.


(** C4, as stated, fails.  With a Python int beyond the range of a C double
    the product [getdata * exptime] cannot be formed (OverflowError); and on
    16-bit integer frames with the Python-int target 600 the products wrap
    around before the division: the frame 300, 600, 900, 1200 comes back as
    -55.36, 107.73.., 52.37.., -2.98.., not as twice the frame. *)
Lemma above_maximum_not_always_scaled :
  ((300 < PyInt (10 ^ 400))%Q /\
   ~ member (inject_Z (int (PyInt (10 ^ 400)))) DEFAULT_EXPLIST /\
   snd (choose_dark (PyInt (10 ^ 400)) "darks" "medcombine_sub" Omitted false
          sample_world) = Raises OverflowError) /\
  (files int16_world !! "darks/dark_300s_medcombine_sub.fits" = Some (sample_frame 300) /\
   (300 < PyInt 600)%Q /\
   ~ member (inject_Z (int (PyInt 600))) DEFAULT_EXPLIST /\
   exists dark,
     choose_dark (PyInt 600) "darks" "medcombine_sub" Omitted false int16_world
       = (int16_world, Returns dark) /\
     (exists p, pixel dark 0 0 = Some p /\ (p == -55.36)%Q) /\
     ~ frame_eq dark (array_mul (sample_frame 300) 2)).
Proof.
  split.
  - split; [vm_compute; reflexivity|].
    split; [apply np_contains_not_member; vm_compute; reflexivity|].
    vm_compute. reflexivity.
  - split; [vm_compute; reflexivity|].
    split; [reflexivity|].
    split; [apply np_contains_not_member; vm_compute; reflexivity|].
    eexists. split; [vm_compute; reflexivity|]. split.
    + eexists. split; [reflexivity | reflexivity].
    + intros H. inversion H as [|r1 r2 d1 d2 Hr _]; subst.
      inversion Hr as [|p q l1 l2 Hpq _]; subst.
      vm_compute in Hpq. discriminate Hpq.
Qed.

(** C4, amended.  A target strictly above the maximum reference exposure,
    whose truncation is no reference: where the maximum is not 0 and the
    products [pixel * exptime], which the code forms first in the element type
    of the stored array, and the quotients are representable (no wrap-around,
    no overflow), the result is the dark frame stored for the maximum
    reference with every pixel multiplied by [exptime / maximum]; e.g. 600
    against a maximum of 300 gives dark(300) * 2. *)
Theorem choose_dark_above_maximum (exptime : pynum) (dark_dir suffix : string)
    (explist : explist_arg) (verbose : bool) (w : World) (refs : list Q)
    (mx : Q) (d : Frame) :
  np_array explist w = (w, Returns refs) ->
  ~ member (inject_Z (int exptime)) refs ->
  max_of refs = Some mx ->
  (mx < exptime)%Q ->
  ~ (mx == 0)%Q ->
  let darkfile := os_path_join dark_dir (dark_name (int mx) suffix) in
  files w !! darkfile = Some d ->
  product_representable (dtype_of w darkfile) d exptime ->
  quotient_representable (dtype_of w darkfile) d exptime mx ->
  exists dark,
    choose_dark exptime dark_dir suffix explist verbose w
      = ((if verbose then printed w ("Using " +:+ darkfile) else w), Returns dark) /\
    frame_eq dark (array_mul d (exptime / mx)).
Proof.
  intros Harr Hm Hmx Hgt Hnz darkfile Hd Hp Hq. apply np_contains_not_member in Hm.
  destruct (min_of_is_Some refs mx) as [mn Hmn]; [now destruct (max_of_spec _ _ Hmx)|].
  destruct (scaled_exact w darkfile exptime mx d Hd Hnz Hp Hq) as (dark & Hs & Heq).
  exists dark. split; [|exact Heq].
  rewrite (branch_above _ _ _ _ _ _ _ Harr mn mx Hm Hmn Hmx Hgt). cbv zeta.
  rewrite above_eval. fold darkfile. now rewrite Hs.
Qed.

Lemma choose_dark_above_maximum_witness :
  exists dark,
    choose_dark (PyInt 600) "darks" "medcombine_sub" Omitted true sample_world
      = (printed sample_world "Using darks/dark_300s_medcombine_sub.fits", Returns dark) /\
    frame_eq dark (array_mul (sample_frame 300) 2).
Proof.
  destruct (float64_representable (sample_frame 300) (PyInt 600) 300) as [Hp Hq];
    [vm_compute; reflexivity..|].
  destruct (choose_dark_above_maximum (PyInt 600) "darks" "medcombine_sub" Omitted true
              sample_world DEFAULT_EXPLIST 300 (sample_frame 300) eq_refl)
    as (dark & Hcall & Heq).
  - apply np_contains_not_member. vm_compute. reflexivity.
  - vm_compute. reflexivity.
  - reflexivity.
  - discriminate.
  - vm_compute. reflexivity.
  - exact Hp.
  - exact Hq.
  - exists dark. split; [exact Hcall|].
    eapply frame_eq_trans; [exact Heq|]. now apply array_mul_scalar.
Defined.

(** The same 16-bit frames with the target given as the Python float 600.0:
    the product is formed in float64 and nothing wraps. *)
Example float_target_does_not_wrap :
  exists dark,
    snd (choose_dark (PyFloat 600) "darks" "medcombine_sub" Omitted false int16_world)
      = Returns dark /\
    frame_eq dark (array_mul (sample_frame 300) 2).
Proof.
  eexists. split; [vm_compute; reflexivity|].
  repeat constructor.
Qed.

(** A float64 frame times a target near the top of the float range: the
    product overflows and the array returned holds inf. *)
Example huge_float_target_overflows :
  snd (choose_dark (PyFloat (inject_Z (2 ^ 1023))) "darks" "medcombine_sub" Omitted
         false sample_world) = Unmodelled NonFiniteArray.
Proof. vm_compute. reflexivity. Qed.

(** C1.  A target strictly between the minimum and the maximum reference
    exposure, whose truncation is no reference: [lower_bound] is the largest
    reference strictly below the target, [upper_bound] the smallest strictly
    above it, and the result is the pixelwise sum of the frame at
    [lower_bound] times [(exptime - lower_bound) / (upper_bound - lower_bound)]
    and the frame at [upper_bound] times
    [(upper_bound - exptime) / (upper_bound - lower_bound)]; e.g. 12 between
    10 and 20 gives 0.2 * dark(10) + 0.8 * dark(20). *)
Theorem choose_dark_interpolates (exptime : pynum) (dark_dir suffix : string)
    (explist : explist_arg) (verbose : bool) (w : World) (refs : list Q) (mn mx : Q) :
  np_array explist w = (w, Returns refs) ->
  ~ member (inject_Z (int exptime)) refs ->
  min_of refs = Some mn ->
  max_of refs = Some mx ->
  (mn < exptime)%Q -> (exptime < mx)%Q ->
  exists lower_bound upper_bound,
    max_of (select_lt refs exptime) = Some lower_bound /\
    min_of (select_gt refs exptime) = Some upper_bound /\
    (In lower_bound refs /\ (lower_bound < exptime)%Q /\
     forall x, In x refs -> (x < exptime)%Q -> (x <= lower_bound)%Q) /\
    (In upper_bound refs /\ (exptime < upper_bound)%Q /\
     forall x, In x refs -> (exptime < x)%Q -> (upper_bound <= x)%Q) /\
    let weight_lower := ((exptime - lower_bound) / (upper_bound - lower_bound))%Q in
    let weight_upper := ((upper_bound - exptime) / (upper_bound - lower_bound))%Q in
    let darkfile1 := os_path_join dark_dir (dark_name (int lower_bound) suffix) in
    let darkfile2 := os_path_join dark_dir (dark_name (int upper_bound) suffix) in
    forall dark1 dark2,
      files w !! darkfile1 = Some dark1 ->
      files w !! darkfile2 = Some dark2 ->
      same_shape dark1 dark2 ->
      choose_dark exptime dark_dir suffix explist verbose w =
        ((if verbose
          then printed w ("Averaging " +:+ darkfile1 +:+ " & " +:+ darkfile2)
          else w),
         Returns (weighted_sum dark1 weight_lower dark2 weight_upper)).
Proof.
  intros Harr Hm Hmn Hmx Hlo Hhi. apply np_contains_not_member in Hm.
  destruct (lower_bound_exists _ _ _ Hmn Hlo) as [lb Hlb].
  destruct (upper_bound_exists _ _ _ Hmx Hhi) as [ub Hub].
  exists lb, ub. split; [exact Hlb|]. split; [exact Hub|].
  split; [now apply lower_bound_spec|]. split; [now apply upper_bound_spec|].
  intros wl wu f1 f2 d1 d2 H1 H2 Hs.
  exact (between_result exptime dark_dir suffix explist verbose w refs mn mx lb ub
           d1 d2 Harr Hm Hmn Hmx Hlo Hhi Hlb Hub H1 H2 Hs).
Qed.

Lemma choose_dark_interpolates_witness :
  exists dark,
    choose_dark (PyInt 12) "darks" "medcombine_sub" (Passed 0) false sample_world
      = (sample_world, Returns dark) /\
    frame_eq dark (weighted_sum (sample_frame 10) 0.2 (sample_frame 20) 0.8).
Proof.
  destruct (choose_dark_interpolates (PyInt 12) "darks" "medcombine_sub" (Passed 0) false
              sample_world [inject_Z 10; inject_Z 20] 10 20)
    as (lb & ub & Hlb & Hub & _ & _ & Hres).
  - vm_compute. reflexivity.
  - apply np_contains_not_member. vm_compute. reflexivity.
  - vm_compute. reflexivity.
  - vm_compute. reflexivity.
  - reflexivity.
  - reflexivity.
  - vm_compute in Hlb, Hub. inversion Hlb; subst lb. inversion Hub; subst ub.
    cbv zeta in Hres.
    specialize (Hres (sample_frame 10) (sample_frame 20)).
    eexists. split.
    + apply Hres; [vm_compute; reflexivity | vm_compute; reflexivity |].
      repeat constructor.
    + apply weighted_sum_weights; reflexivity.
Defined.

(** C6.  On the interpolation path the two weights sum to 1 for every target
    strictly between its bracketing references; at the midpoint both weights
    are 1/2 and the result is the plain average of the two frames, whichever
    weight is paired with whichever frame (15 between 10 and 20:
    0.5 * dark(10) + 0.5 * dark(20)). *)
Theorem interpolation_weights_sum_to_one (exptime : pynum) (dark_dir suffix : string)
    (explist : explist_arg) (verbose : bool) (w : World) (refs : list Q) (mn mx : Q) :
  np_array explist w = (w, Returns refs) ->
  ~ member (inject_Z (int exptime)) refs ->
  min_of refs = Some mn ->
  max_of refs = Some mx ->
  (mn < exptime)%Q -> (exptime < mx)%Q ->
  exists lower_bound upper_bound,
    max_of (select_lt refs exptime) = Some lower_bound /\
    min_of (select_gt refs exptime) = Some upper_bound /\
    let weight_lower := ((exptime - lower_bound) / (upper_bound - lower_bound))%Q in
    let weight_upper := ((upper_bound - exptime) / (upper_bound - lower_bound))%Q in
    (weight_lower + weight_upper == 1)%Q /\
    (forall dark1 dark2,
       files w !! os_path_join dark_dir (dark_name (int lower_bound) suffix) = Some dark1 ->
       files w !! os_path_join dark_dir (dark_name (int upper_bound) suffix) = Some dark2 ->
       same_shape dark1 dark2 ->
       snd (choose_dark exptime dark_dir suffix explist verbose w)
         = Returns (weighted_sum dark1 weight_lower dark2 weight_upper)) /\
    ((exptime == (lower_bound + upper_bound) / 2)%Q ->
     (weight_lower == 1 / 2)%Q /\ (weight_upper == 1 / 2)%Q /\
     forall dark1 dark2,
       frame_eq (weighted_sum dark1 weight_lower dark2 weight_upper)
                (weighted_sum dark1 (1 / 2) dark2 (1 / 2)) /\
       frame_eq (weighted_sum dark1 weight_upper dark2 weight_lower)
                (weighted_sum dark1 (1 / 2) dark2 (1 / 2))).
Proof.
  intros Harr Hm Hmn Hmx Hlo Hhi. apply np_contains_not_member in Hm.
  destruct (lower_bound_exists _ _ _ Hmn Hlo) as [lb Hlb].
  destruct (upper_bound_exists _ _ _ Hmx Hhi) as [ub Hub].
  exists lb, ub. split; [exact Hlb|]. split; [exact Hub|].
  assert (Hd : ~ (ub - lb == 0)%Q).
  { destruct (lower_bound_spec _ _ _ Hlb) as (_ & Hl & _).
    destruct (upper_bound_spec _ _ _ Hub) as (_ & Hu & _). intros E.
    assert (Heq : (ub == lb)%Q) by (rewrite <- (Qplus_0_l lb), <- E; ring).
    rewrite Heq in Hu. exact (Qlt_irrefl _ (Qlt_trans _ _ _ Hl Hu)). }
  cbv zeta. split; [|split].
  - field. exact Hd.
  - intros d1 d2 H1 H2 Hs.
    now rewrite (between_result exptime dark_dir suffix explist verbose w refs mn mx
                   lb ub d1 d2 Harr Hm Hmn Hmx Hlo Hhi Hlb Hub H1 H2 Hs).
  - intros Hmid.
    assert (Hwl : ((exptime - lb) / (ub - lb) == 1 / 2)%Q).
    { rewrite Hmid. field. exact Hd. }
    assert (Hwu : ((ub - exptime) / (ub - lb) == 1 / 2)%Q).
    { rewrite Hmid. field. exact Hd. }
    split; [exact Hwl|]. split; [exact Hwu|].
    intros d1 d2. split; now apply weighted_sum_weights.
Qed.

Lemma interpolation_weights_sum_to_one_witness :
  exists dark,
    snd (choose_dark (PyInt 15) "darks" "medcombine_sub" Omitted false sample_world)
      = Returns dark /\
    frame_eq dark (weighted_sum (sample_frame 10) 0.5 (sample_frame 20) 0.5).
Proof.
  destruct (interpolation_weights_sum_to_one (PyInt 15) "darks" "medcombine_sub" Omitted false
              sample_world DEFAULT_EXPLIST 5 300)
    as (lb & ub & Hlb & Hub & _ & Hres & Hmid).
  - reflexivity.
  - apply np_contains_not_member. vm_compute. reflexivity.
  - vm_compute. reflexivity.
  - vm_compute. reflexivity.
  - reflexivity.
  - reflexivity.
  - vm_compute in Hlb, Hub. inversion Hlb; subst lb. inversion Hub; subst ub.
    specialize (Hres (sample_frame 10) (sample_frame 20)).
    eexists. split.
    + apply Hres; [vm_compute; reflexivity | vm_compute; reflexivity |].
      repeat constructor.
    + destruct Hmid as (_ & _ & Heq); [reflexivity|].
      eapply frame_eq_trans; [apply (Heq (sample_frame 10) (sample_frame 20))|].
      apply weighted_sum_weights; reflexivity.
Defined.

(** C7.  With whole-number reference exposures, a target equal to the
    minimum or to the maximum reference takes the exact-match path: the call
    is the load of the file of that reference, and the stored frame comes
    back unmodified; no scaling or interpolation path is taken. *)
Theorem boundary_is_exact_match (exptime : pynum) (dark_dir suffix : string)
    (explist : explist_arg) (verbose : bool) (w : World) (refs : list Q) (m : Q) :
  np_array explist w = (w, Returns refs) ->
  Forall is_integer refs ->
  min_of refs = Some m \/ max_of refs = Some m ->
  (exptime == m)%Q ->
  let darkfile := os_path_join dark_dir (dark_name (int m) suffix) in
  np_contains (inject_Z (int exptime)) refs = true /\
  choose_dark exptime dark_dir suffix explist verbose w =
    ((if verbose then printed w ("Using " +:+ darkfile) else w), loaded w darkfile) /\
  (forall d, files w !! darkfile = Some d ->
     snd (choose_dark exptime dark_dir suffix explist verbose w) = Returns d).
Proof.
  intros Harr Hint Hm Heq darkfile.
  assert (Hin : In m refs).
  { destruct Hm as [Hm|Hm];
      [now destruct (min_of_spec _ _ Hm) | now destruct (max_of_spec _ _ Hm)]. }
  pose proof (proj1 (List.Forall_forall _ _) Hint m Hin) as Hi.
  pose proof (int_Qeq _ _ Heq) as Hint_eq.
  assert (Hc : np_contains (inject_Z (int exptime)) refs = true).
  { apply np_contains_member. exists m. split; [exact Hin|].
    rewrite Hint_eq. symmetry. exact Hi. }
  pose proof (branch_exact exptime dark_dir suffix explist verbose w refs Harr Hc) as Hcall.
  cbv beta zeta in Hcall. rewrite Hint_eq in Hcall. fold darkfile in Hcall.
  split; [exact Hc|]. split; [exact Hcall|].
  intros d Hd. rewrite Hcall. cbn [snd]. unfold loaded. now rewrite Hd.
Qed.

Lemma boundary_is_exact_match_witness :
  snd (choose_dark (PyInt 300) "darks" "medcombine_sub" Omitted false sample_world)
    = Returns (sample_frame 300).
Proof.
  destruct (boundary_is_exact_match (PyInt 300) "darks" "medcombine_sub" Omitted false
              sample_world DEFAULT_EXPLIST 300) as (_ & _ & Hret).
  - reflexivity.
  - repeat constructor.
  - right. vm_compute. reflexivity.
  - reflexivity.
  - apply Hret. vm_compute. reflexivity.
Defined.

(** C9, as stated, fails in its last clause: the library 5, 7.5, 10 has a
    reference that is not a whole number, and still no target falls through
    the four branches. *)
Lemma exhaustive_with_fractional_reference :
  exhaustive [inject_Z 5; 7.5%Q; inject_Z 10] /\
  ~ Forall is_integer [inject_Z 5; 7.5%Q; inject_Z 10].
Proof.
  split.
  - intros t dir suf arg v w name Harr Hu.
    destruct (unbound_inv _ _ _ _ _ _ _ _ Harr Hu) as (Hc & mn & mx & Hmn & Hmx & Heq).
    vm_compute in Hmn, Hmx. inversion Hmn; subst mn. inversion Hmx; subst mx.
    destruct Heq as [E|E].
    + rewrite (int_of_integer t 5 E) in Hc. vm_compute in Hc. discriminate.
    + rewrite (int_of_integer t 10 E) in Hc. vm_compute in Hc. discriminate.
  - intros H. inversion H as [|x l H5 H']; subst. inversion H' as [|y l' H75 _]; subst.
    unfold is_integer, Qeq in H75. vm_compute in H75. discriminate.
Qed.

(** C9, amended.  A target that equals the minimum or the maximum reference
    while its truncation is no reference gets no branch: the call raises the
    unbound-local error for [dark].  The branches are exhaustive whenever
    every reference is a whole number, and, for a non-empty library, exactly
    when the truncations of its minimum and of its maximum are references. *)
Theorem choose_dark_falls_through (exptime : pynum) (dark_dir suffix : string)
    (explist : explist_arg) (verbose : bool) (w : World) (refs : list Q) (mn mx : Q) :
  np_array explist w = (w, Returns refs) ->
  min_of refs = Some mn ->
  max_of refs = Some mx ->
  ((exptime == mn)%Q \/ (exptime == mx)%Q ->
   ~ member (inject_Z (int exptime)) refs ->
   choose_dark exptime dark_dir suffix explist verbose w
     = (w, Raises (UnboundLocalError "dark"))) /\
  (Forall is_integer refs -> exhaustive refs) /\
  (exhaustive refs <->
   member (inject_Z (int mn)) refs /\ member (inject_Z (int mx)) refs).
Proof.
  intros Harr Hmn Hmx.
  assert (Hback : member (inject_Z (int mn)) refs /\ member (inject_Z (int mx)) refs ->
                  exhaustive refs).
  { intros [Hlo Hhi] t dir suf arg v w0 name Harr0 Hu.
    destruct (unbound_inv _ _ _ _ _ _ _ _ Harr0 Hu)
      as (Hc & mn' & mx' & Hmn' & Hmx' & Heq).
    rewrite Hmn in Hmn'. rewrite Hmx in Hmx'.
    inversion Hmn'; subst mn'. inversion Hmx'; subst mx'.
    apply np_contains_not_member in Hc. apply Hc.
    destruct Heq as [E|E]; rewrite (int_Qeq _ _ E); assumption. }
  split; [|split; [|split; [|exact Hback]]].
  - intros Heq Hm. apply np_contains_not_member in Hm.
    exact (branch_unbound exptime dark_dir suffix explist verbose w refs Harr
             mn mx Hm Hmn Hmx Heq).
  - intros Hint. apply Hback.
    assert (Hself : forall m, In m refs -> member (inject_Z (int m)) refs).
    { intros m Hin. exists m. split; [exact Hin|]. symmetry.
      exact (proj1 (List.Forall_forall _ _) Hint m Hin). }
    split; apply Hself;
      [now destruct (min_of_spec _ _ Hmn) | now destruct (max_of_spec _ _ Hmx)].
  - intros Hex.
    pose (w0 := mkWorld refs ∅ ∅ ∅ []).
    assert (Harr0 : np_array Omitted w0 = (w0, Returns refs)) by reflexivity.
    split; apply np_contains_member.
    + destruct (np_contains (inject_Z (int mn)) refs) eqn:Hc; [reflexivity|].
      exfalso. apply (Hex (PyFloat mn) "" "" Omitted false w0 "dark" Harr0).
      rewrite (branch_unbound (PyFloat mn) "" "" Omitted false w0 refs Harr0 mn mx
                 Hc Hmn Hmx);
        [reflexivity | left; reflexivity].
    + destruct (np_contains (inject_Z (int mx)) refs) eqn:Hc; [reflexivity|].
      exfalso. apply (Hex (PyFloat mx) "" "" Omitted false w0 "dark" Harr0).
      rewrite (branch_unbound (PyFloat mx) "" "" Omitted false w0 refs Harr0 mn mx
                 Hc Hmn Hmx);
        [reflexivity | right; reflexivity].
Qed.

Lemma choose_dark_falls_through_witness :
  choose_dark (PyFloat 5.5) "darks" "medcombine_sub" (Passed 0) true fractional_min_world
    = (fractional_min_world, Raises (UnboundLocalError "dark")).
Proof.
  destruct (choose_dark_falls_through (PyFloat 5.5) "darks" "medcombine_sub" (Passed 0) true
              fractional_min_world [5.5%Q; inject_Z 10] 5.5 10) as (Hfall & _ & _).
  - vm_compute. reflexivity.
  - vm_compute. reflexivity.
  - vm_compute. reflexivity.
  - apply Hfall.
    + left. reflexivity.
    + apply np_contains_not_member. vm_compute. reflexivity.
Defined.

(** * Further properties of choose_dark *)

(** ** What the verbosity flag and the printed output can change *)

Lemma same_store_refl (w : World) : same_store w w.
Proof. now repeat split. Qed.

Lemma sim_bind {A B : Type} (c1 c2 : M A) (k1 k2 : A -> M B) :
  sim c1 c2 -> (forall a, sim (k1 a) (k2 a)) -> sim (bind c1 k1) (bind c2 k2).
Proof.
  intros Hc Hk w1 w2 Hw. unfold bind. destruct (Hc w1 w2 Hw) as [Ho Hs].
  destruct (c1 w1) as [w1' [a1|e1|l1]], (c2 w2) as [w2' [a2|e2|l2]];
    cbn [fst snd] in Ho, Hs |- *; try discriminate.
  - inversion Ho; subst a2. now apply Hk.
  - inversion Ho; subst e2. now split.
  - inversion Ho; subst l2. now split.
Qed.

Lemma sim_const {A : Type} (o : outcome A) : sim (fun w => (w, o)) (fun w => (w, o)).
Proof. intros w1 w2 Hw. now split. Qed.

Lemma sim_ret {A : Type} (a : A) : sim (ret a) (ret a).
Proof. apply sim_const. Qed.

Lemma sim_raise {A : Type} (e : exn) : sim (@raise A e) (raise e).
Proof. apply sim_const. Qed.

Lemma sim_np_array (a : explist_arg) : sim (np_array a) (np_array a).
Proof.
  intros w1 w2 (Hd & Hh & Hf & Ht). unfold np_array. destruct a as [|l].
  - cbn. rewrite Hd. now repeat split.
  - rewrite Hh. destruct (heap w2 !! l); cbn; now repeat split.
Qed.

Lemma sim_np_min (a : list Q) : sim (np_min a) (np_min a).
Proof. unfold np_min. destruct (min_of a); apply sim_const. Qed.

Lemma sim_np_max (a : list Q) : sim (np_max a) (np_max a).
Proof. unfold np_max. destruct (max_of a); apply sim_const. Qed.

Lemma sim_fits_getdata (path : string) : sim (fits_getdata path) (fits_getdata path).
Proof.
  intros w1 w2 (Hd & Hh & Hf & Ht). unfold fits_getdata. rewrite Hf.
  destruct (files w2 !! path); cbn; now repeat split.
Qed.

Lemma sim_np_divide (x y : Q) : sim (np_divide x y) (np_divide x y).
Proof. unfold np_divide. destruct (Qeq_bool y 0); apply sim_const. Qed.

Lemma sim_np_array_divide (ty : dtype) (d : Frame) (y : Q) :
  sim (np_array_divide ty d y) (np_array_divide ty d y).
Proof. apply sim_const. Qed.

Lemma sim_np_multiply (ty : dtype) (d : Frame) (x : pynum) :
  sim (np_multiply ty d x) (np_multiply ty d x).
Proof. apply sim_const. Qed.

Lemma sim_fits_dtype (path : string) : sim (fits_dtype path) (fits_dtype path).
Proof.
  intros w1 w2 (Hd & Hh & Hf & Ht). unfold fits_dtype, dtype_of. rewrite Ht.
  cbn. now repeat split.
Qed.

Lemma sim_np_array_add (d1 d2 : Frame) : sim (np_array_add d1 d2) (np_array_add d1 d2).
Proof. unfold np_array_add. destruct (array_add d1 d2); apply sim_const. Qed.

Lemma sim_when_print (v1 v2 : bool) (line : string) :
  sim (when v1 (print line)) (when v2 (print line)).
Proof.
  intros w1 w2 (Hd & Hh & Hf & Ht). destruct v1, v2; cbn; now repeat split.
Qed.

Create HintDb sim discriminated.
#[local] Hint Resolve sim_ret sim_raise sim_np_array sim_np_min sim_np_max
  sim_fits_getdata sim_np_divide sim_np_array_divide sim_np_array_add
  sim_when_print sim_np_multiply sim_fits_dtype : sim.

Ltac sim_step :=
  match goal with
  | |- sim (bind _ _) (bind _ _) => apply sim_bind; [| intros ?]
  | |- sim (if ?b then _ else _) (if ?b then _ else _) => destruct b
  | |- sim _ _ => solve [auto with sim]
  end.

Lemma sim_choose_dark (exptime : pynum) (dark_dir suffix : string)
    (explist : explist_arg) (v1 v2 : bool) :
  sim (choose_dark exptime dark_dir suffix explist v1)
      (choose_dark exptime dark_dir suffix explist v2).
Proof. unfold choose_dark. cbv zeta. repeat sim_step. Qed.

(** X1.  The verbosity flag changes the printed output only: with the flag
    set or not, the call ends the same way (the same array, or the same
    error). *)
Theorem verbose_does_not_change_outcome (exptime : pynum) (dark_dir suffix : string)
    (explist : explist_arg) (w : World) :
  snd (choose_dark exptime dark_dir suffix explist true w)
    = snd (choose_dark exptime dark_dir suffix explist false w).
Proof.
  exact (proj1 (sim_choose_dark exptime dark_dir suffix explist true false w w
                  (same_store_refl w))).
Qed.

(** X2.  Calling again with the same arguments gives the same outcome: the
    second call, made in the world the first one left, ends as the first. *)
Theorem choose_dark_repeatable (exptime : pynum) (dark_dir suffix : string)
    (explist : explist_arg) (verbose : bool) (w : World) :
  let w' := fst (choose_dark exptime dark_dir suffix explist verbose w) in
  snd (choose_dark exptime dark_dir suffix explist verbose w')
    = snd (choose_dark exptime dark_dir suffix explist verbose w).
Proof.
  cbv zeta.
  apply (sim_choose_dark exptime dark_dir suffix explist verbose verbose).
  destruct (preserves_choose_dark exptime dark_dir suffix explist verbose w)
    as (H1 & H2 & H3 & H4 & _).
  now repeat split.
Qed.

Lemma read_only_const {A : Type} (o : outcome A) : read_only (fun w => (w, o)).
Proof. now intros w. Qed.

Lemma read_only_bind {A B : Type} (c : M A) (k : A -> M B) :
  read_only c -> (forall a, read_only (k a)) -> read_only (bind c k).
Proof.
  intros Hc Hk w. unfold bind. specialize (Hc w).
  destruct (c w) as [w' [a|e|l]]; cbn [fst] in Hc |- *; subst w'; [apply Hk|easy..].
Qed.

Lemma read_only_ret {A : Type} (a : A) : read_only (ret a).
Proof. apply read_only_const. Qed.

Lemma read_only_raise {A : Type} (e : exn) : read_only (@raise A e).
Proof. apply read_only_const. Qed.

Lemma read_only_np_array (a : explist_arg) : read_only (np_array a).
Proof.
  intros w. unfold np_array. destruct a as [|l]; [reflexivity|].
  now destruct (heap w !! l).
Qed.

Lemma read_only_np_min (a : list Q) : read_only (np_min a).
Proof. unfold np_min. destruct (min_of a); apply read_only_const. Qed.

Lemma read_only_np_max (a : list Q) : read_only (np_max a).
Proof. unfold np_max. destruct (max_of a); apply read_only_const. Qed.

Lemma read_only_fits_getdata (path : string) : read_only (fits_getdata path).
Proof. intros w. unfold fits_getdata. now destruct (files w !! path). Qed.

Lemma read_only_np_divide (x y : Q) : read_only (np_divide x y).
Proof. unfold np_divide. destruct (Qeq_bool y 0); apply read_only_const. Qed.

Lemma read_only_np_array_divide (ty : dtype) (d : Frame) (y : Q) :
  read_only (np_array_divide ty d y).
Proof. now intros w. Qed.

Lemma read_only_np_multiply (ty : dtype) (d : Frame) (x : pynum) :
  read_only (np_multiply ty d x).
Proof. now intros w. Qed.

Lemma read_only_fits_dtype (path : string) : read_only (fits_dtype path).
Proof. now intros w. Qed.

Lemma read_only_np_array_add (d1 d2 : Frame) : read_only (np_array_add d1 d2).
Proof. unfold np_array_add. destruct (array_add d1 d2); apply read_only_const. Qed.

Lemma read_only_when_false (c : M unit) : read_only (when false c).
Proof. apply read_only_const. Qed.

Create HintDb ro discriminated.
#[local] Hint Resolve read_only_ret read_only_raise read_only_np_array
  read_only_np_min read_only_np_max read_only_fits_getdata read_only_np_divide
  read_only_np_array_divide read_only_np_array_add read_only_when_false
  read_only_np_multiply read_only_fits_dtype : ro.

Ltac ro_step :=
  match goal with
  | |- read_only (bind _ _) => apply read_only_bind; [| intros ?]
  | |- read_only (if ?b then _ else _) => destruct b
  | |- read_only _ => solve [auto with ro]
  end.

Lemma prints_read_only {A : Type} (c : M A) (n : nat) :
  read_only c -> prints_at_most n c.
Proof.
  intros H w. exists []. rewrite H, app_nil_r. split; [reflexivity | cbn; lia].
Qed.

Lemma prints_bind {A B : Type} (n m p : nat) (c : M A) (k : A -> M B) :
  prints_at_most n c -> (forall a, prints_at_most m (k a)) -> (n + m <= p)%nat ->
  prints_at_most p (bind c k).
Proof.
  intros Hc Hk Hp w. unfold bind. destruct (Hc w) as (l1 & E1 & L1).
  destruct (c w) as [w' [a|e|l]]; cbn [fst] in E1 |- *.
  - destruct (Hk a w') as (l2 & E2 & L2). exists (l1 ++ l2).
    rewrite E2, E1, app_assoc, length_app. split; [reflexivity | lia].
  - exists l1. split; [exact E1 | lia].
  - exists l1. split; [exact E1 | lia].
Qed.

Lemma prints_when_print (v : bool) (line : string) :
  prints_at_most 1 (when v (print line)).
Proof.
  intros w. destruct v; cbn.
  - exists [line]. split; [reflexivity | cbn; lia].
  - exists []. rewrite app_nil_r. split; [reflexivity | cbn; lia].
Qed.

Ltac prints_step :=
  match goal with
  | |- prints_at_most _ (bind (when _ _) _) =>
      apply (prints_bind 1 0); [apply prints_when_print | intros ? | lia]
  | |- prints_at_most ?p (bind _ _) =>
      apply (prints_bind 0 p); [apply prints_read_only; auto with ro | intros ? | lia]
  | |- prints_at_most _ (if ?b then _ else _) => destruct b
  | |- prints_at_most _ _ => solve [apply prints_read_only; auto with ro]
  end.

(** X3.  Without the verbosity flag the call is read-only: the world after it,
    printed output included, is the world before it. *)
Theorem quiet_call_is_read_only (exptime : pynum) (dark_dir suffix : string)
    (explist : explist_arg) (w : World) :
  fst (choose_dark exptime dark_dir suffix explist false w) = w.
Proof.
  revert w. change (read_only (choose_dark exptime dark_dir suffix explist false)).
  unfold choose_dark. cbv zeta. repeat ro_step.
Qed.

(** X4.  A call prints at most one line, whichever path it takes and however
    it ends. *)
Theorem at_most_one_line_printed (exptime : pynum) (dark_dir suffix : string)
    (explist : explist_arg) (verbose : bool) (w : World) :
  exists lines,
    stdout (fst (choose_dark exptime dark_dir suffix explist verbose w))
      = stdout w ++ lines /\
    (length lines <= 1)%nat.
Proof.
  revert w.
  change (prints_at_most 1 (choose_dark exptime dark_dir suffix explist verbose)).
  unfold choose_dark. cbv zeta. repeat prints_step.
Qed.

(** ** How a call can end *)

Lemma path_of_total (exptime : Q) (refs : list Q) : path_of exptime refs.
Proof.
  destruct (np_contains (inject_Z (int exptime)) refs) eqn:Hc;
    [now apply PathExact|].
  destruct (min_of refs) as [mn|] eqn:Hmn;
    [|apply PathEmpty; now apply min_of_nil_iff].
  destruct (max_of refs) as [mx|] eqn:Hmx;
    [|apply max_of_nil_iff in Hmx; subst refs; discriminate].
  destruct (Q_dec exptime mn) as [[Hlt|Hgt]|Heq].
  - now apply (PathBelow _ _ mn).
  - destruct (Q_dec exptime mx) as [[Hlt|Hgt']|Heq].
    + destruct (lower_bound_exists _ _ _ Hmn Hgt) as [lb Hlb].
      destruct (upper_bound_exists _ _ _ Hmx Hlt) as [ub Hub].
      now apply (PathBetween _ _ mn mx lb ub).
    + now apply (PathAbove _ _ mn mx).
    + apply (PathNone _ _ mn mx); auto.
  - apply (PathNone _ _ mn mx); auto.
Qed.

(** The outcome of a call, path by path. *)
Lemma choose_dark_outcome (exptime : pynum) (dark_dir suffix : string)
    (explist : explist_arg) (verbose : bool) (w : World) (refs : list Q) :
  np_array explist w = (w, Returns refs) ->
  let file_of := fun e : Q => os_path_join dark_dir (dark_name (int e) suffix) in
  let out := snd (choose_dark exptime dark_dir suffix explist verbose w) in
  (np_contains (inject_Z (int exptime)) refs = true /\
   out = loaded w (file_of exptime)) \/
  (refs = [] /\ out = Raises ValueError_zero_size) \/
  (exists mn,
     min_of refs = Some mn /\ (exptime < mn)%Q /\
     out = scaled w (file_of mn) exptime mn) \/
  (exists lb ub,
     max_of (select_lt refs exptime) = Some lb /\
     min_of (select_gt refs exptime) = Some ub /\
     out = averaged w (file_of lb) (file_of ub)
             ((exptime - lb) / (ub - lb)) ((ub - exptime) / (ub - lb))) \/
  (exists mx,
     max_of refs = Some mx /\ (mx < exptime)%Q /\
     out = scaled w (file_of mx) exptime mx) \/
  (exists mn mx,
     min_of refs = Some mn /\ max_of refs = Some mx /\
     ((exptime == mn)%Q \/ (exptime == mx)%Q) /\
     np_contains (inject_Z (int exptime)) refs = false /\
     out = Raises (UnboundLocalError "dark")).
Proof.
  intros Harr file_of out. subst out file_of.
  destruct (path_of_total exptime refs)
    as [Hc | He | mn Hc Hmn Hlt | mn mx lb ub Hc Hmn Hmx Hlo Hhi Hlb Hub
        | mn mx Hc Hmn Hmx Hgt | mn mx Hc Hmn Hmx Heq].
  - left. rewrite (branch_exact _ _ _ _ _ _ _ Harr Hc). now split.
  - right; left. rewrite (branch_empty _ _ _ _ _ _ _ Harr He). now split.
  - right; right; left. exists mn.
    rewrite (branch_below _ _ _ _ _ _ _ Harr mn Hc Hmn Hlt), below_eval.
    now repeat split.
  - right; right; right; left. exists lb, ub.
    rewrite (branch_between _ _ _ _ _ _ _ Harr mn mx lb ub Hc Hmn Hmx Hlo Hhi Hlb Hub).
    cbv zeta. rewrite between_eval. now repeat split.
  - right; right; right; right; left. exists mx.
    rewrite (branch_above _ _ _ _ _ _ _ Harr mn mx Hc Hmn Hmx Hgt).
    cbv zeta. rewrite above_eval. now repeat split.
  - right; right; right; right; right. exists mn, mx.
    rewrite (branch_unbound _ _ _ _ _ _ _ Harr mn mx Hc Hmn Hmx Heq). now repeat split.
Qed.

(** X5.  A file-not-found error is never spurious and never about a foreign
    file: the file named in it is absent, and its name is the dark-file name
    of the truncated target or of a truncated reference exposure. *)
Theorem file_not_found_is_a_missing_dark (exptime : pynum) (dark_dir suffix : string)
    (explist : explist_arg) (verbose : bool) (w : World) (refs : list Q)
    (path : string) :
  np_array explist w = (w, Returns refs) ->
  snd (choose_dark exptime dark_dir suffix explist verbose w)
    = Raises (FileNotFoundError path) ->
  files w !! path = None /\
  exists e : Q, (e = exptime \/ In e refs) /\
                path = os_path_join dark_dir (dark_name (int e) suffix).
Proof.
  intros Harr Hout.
  destruct (choose_dark_outcome exptime dark_dir suffix explist verbose w refs Harr)
    as [[_ H] | [[_ H] | [(mn & Hmn & _ & H) | [(lb & ub & Hlb & Hub & H)
        | [(mx & Hmx & _ & H) | (mn & mx & _ & _ & _ & _ & H)]]]]];
    rewrite H in Hout; clear H.
  - unfold loaded in Hout. destruct (files w !! _) eqn:E; inversion Hout; subst path.
    split; [exact E|]. exists exptime. auto.
  - discriminate.
  - destruct (scaled_raises _ _ _ _ _ Hout) as [[E H]|H]; [|discriminate].
    inversion H; subst path. split; [exact E|].
    exists mn. split; [right; now destruct (min_of_spec _ _ Hmn) | reflexivity].
  - unfold averaged in Hout.
    destruct (files w !! os_path_join dark_dir (dark_name (int lb) suffix)) eqn:E1.
    + destruct (files w !! os_path_join dark_dir (dark_name (int ub) suffix)) eqn:E2.
      * destruct (array_add _ _); discriminate.
      * inversion Hout; subst path. split; [exact E2|].
        exists ub. split; [right; now destruct (upper_bound_spec _ _ _ Hub) | reflexivity].
    + inversion Hout; subst path. split; [exact E1|].
      exists lb. split; [right; now destruct (lower_bound_spec _ _ _ Hlb) | reflexivity].
  - destruct (scaled_raises _ _ _ _ _ Hout) as [[E H]|H]; [|discriminate].
    inversion H; subst path. split; [exact E|].
    exists mx. split; [right; now destruct (max_of_spec _ _ Hmx) | reflexivity].
  - discriminate.
Qed.

Lemma file_not_found_is_a_missing_dark_witness :
  files bare_world !! "darks/dark_10s_medcombine_sub.fits" = None /\
  exists e : Q, (e = PyInt 12 \/ In e DEFAULT_EXPLIST) /\
            "darks/dark_10s_medcombine_sub.fits"
              = os_path_join "darks" (dark_name (int e) "medcombine_sub").
Proof.
  apply (file_not_found_is_a_missing_dark (PyInt 12) "darks" "medcombine_sub" Omitted true
           bare_world DEFAULT_EXPLIST "darks/dark_10s_medcombine_sub.fits" eq_refl).
  vm_compute. reflexivity.
Defined.

(** X6.  With a non-empty list of references the zero-size reduction error
    cannot occur: the masked selections [explist[explist < exptime]] and
    [explist[explist > exptime]] are never empty where their extremum is
    taken. *)
Theorem no_zero_size_error_on_nonempty_list (exptime : pynum) (dark_dir suffix : string)
    (explist : explist_arg) (verbose : bool) (w : World) (refs : list Q) :
  np_array explist w = (w, Returns refs) ->
  refs <> [] ->
  snd (choose_dark exptime dark_dir suffix explist verbose w)
    <> Raises ValueError_zero_size.
Proof.
  intros Harr Hne Hout.
  destruct (choose_dark_outcome exptime dark_dir suffix explist verbose w refs Harr)
    as [[_ H] | [[He _] | [(mn & _ & _ & H) | [(lb & ub & _ & _ & H)
        | [(mx & _ & _ & H) | (mn & mx & _ & _ & _ & _ & H)]]]]];
    try (rewrite H in Hout; clear H).
  - unfold loaded in Hout. destruct (files w !! _); discriminate.
  - contradiction.
  - destruct (scaled_raises _ _ _ _ _ Hout) as [[_ H]|H]; discriminate.
  - unfold averaged in Hout.
    destruct (files w !! _); [|discriminate].
    destruct (files w !! _); [|discriminate].
    destruct (array_add _ _); discriminate.
  - destruct (scaled_raises _ _ _ _ _ Hout) as [[_ H]|H]; discriminate.
  - discriminate.
Qed.

Lemma no_zero_size_error_on_nonempty_list_witness :
  snd (choose_dark (PyInt 12) "darks" "medcombine_sub" Omitted true bare_world)
    <> Raises ValueError_zero_size.
Proof.
  apply (no_zero_size_error_on_nonempty_list (PyInt 12) "darks" "medcombine_sub" Omitted true
           bare_world DEFAULT_EXPLIST eq_refl).
  discriminate.
Defined.

(** ** A well-formed library *)

Lemma same_shape_sym (d1 d2 : Frame) : same_shape d1 d2 -> same_shape d2 d1.
Proof.
  unfold same_shape. induction 1 as [|r1 r2 d1 d2 Hr Hd IH]; constructor; auto.
Qed.

Lemma same_shape_trans (d1 d2 d3 : Frame) :
  same_shape d1 d2 -> same_shape d2 d3 -> same_shape d1 d3.
Proof.
  unfold same_shape. intros H. revert d3.
  induction H as [|r1 r2 d1 d2 Hr Hd IH]; intros d3 H23; inversion H23; subst;
    constructor; [congruence | now apply IH].
Qed.

Lemma same_shape_map (f : Q -> Q) (d : Frame) : same_shape d (map (map f) d).
Proof.
  unfold same_shape. induction d as [|r d IH]; cbn; constructor; [|exact IH].
  now rewrite length_map.
Qed.

Lemma same_shape_weighted_sum (d1 d2 : Frame) (a b : Q) :
  same_shape d1 d2 -> same_shape d1 (weighted_sum d1 a d2 b).
Proof.
  unfold same_shape, weighted_sum.
  induction 1 as [|r1 r2 d1 d2 Hr Hd IH]; cbn; constructor; [|exact IH].
  rewrite length_zip_with. lia.
Qed.

Lemma integer_boundary_contained (refs : list Q) (t m : Q) :
  Forall is_integer refs -> In m refs -> (t == m)%Q ->
  np_contains (inject_Z (int t)) refs = true.
Proof.
  intros Hint Hin Heq. apply np_contains_member. exists m. split; [exact Hin|].
  rewrite (int_Qeq _ _ Heq). symmetry.
  exact (proj1 (List.Forall_forall _ _) Hint m Hin).
Qed.

(** X8.  On a well-formed library the call returns an array for every target
    within the library: when every reference is a whole number and the dark
    file of every reference is on disk with a frame of one common shape, then
    for every target from the minimum to the maximum reference no error is
    raised and the array returned has that shape. *)
Theorem well_formed_library_returns_in_range (exptime : pynum) (dark_dir suffix : string)
    (explist : explist_arg) (verbose : bool) (w : World) (refs : list Q)
    (mn mx : Q) (shape : Frame) :
  np_array explist w = (w, Returns refs) ->
  Forall is_integer refs ->
  min_of refs = Some mn ->
  max_of refs = Some mx ->
  (mn <= exptime)%Q -> (exptime <= mx)%Q ->
  (forall r, In r refs ->
     exists d, files w !! os_path_join dark_dir (dark_name (int r) suffix) = Some d /\
               same_shape shape d) ->
  exists dark,
    snd (choose_dark exptime dark_dir suffix explist verbose w) = Returns dark /\
    same_shape shape dark.
Proof.
  intros Harr Hint Hmn Hmx Hlo Hhi Hlib.
  destruct (choose_dark_outcome exptime dark_dir suffix explist verbose w refs Harr)
    as [[Hc H] | [[He _] | [(mn' & Hmn' & Hlt & _) | [(lb & ub & Hlb & Hub & H)
        | [(mx' & Hmx' & Hgt & _) | (mn' & mx' & Hmn' & Hmx' & Heq & Hc & _)]]]]];
    try (rewrite H; clear H).
  - apply np_contains_member in Hc. destruct Hc as (r & Hin & Hr).
    destruct (Hlib r Hin) as (d & Hd & Hs).
    rewrite (int_of_integer r (int exptime) Hr) in Hd.
    exists d. unfold loaded. now rewrite Hd.
  - subst refs. discriminate.
  - exfalso. rewrite Hmn in Hmn'. inversion Hmn'; subst mn'. lra.
  - destruct (lower_bound_spec _ _ _ Hlb) as (Hin1 & _).
    destruct (upper_bound_spec _ _ _ Hub) as (Hin2 & _).
    destruct (Hlib lb Hin1) as (d1 & Hd1 & Hs1).
    destruct (Hlib ub Hin2) as (d2 & Hd2 & Hs2).
    assert (Hs : same_shape d1 d2)
      by (eapply same_shape_trans; [apply same_shape_sym; exact Hs1 | exact Hs2]).
    eexists. unfold averaged. rewrite Hd1, Hd2, (array_add_weighted _ _ _ _ Hs).
    split; [reflexivity|].
    eapply same_shape_trans; [exact Hs1 | now apply same_shape_weighted_sum].
  - exfalso. rewrite Hmx in Hmx'. inversion Hmx'; subst mx'. lra.
  - exfalso. assert (Hc' : np_contains (inject_Z (int exptime)) refs = true).
    { destruct Heq as [E|E].
      - apply (integer_boundary_contained refs exptime mn' Hint); [|exact E].
        now destruct (min_of_spec _ _ Hmn').
      - apply (integer_boundary_contained refs exptime mx' Hint); [|exact E].
        now destruct (max_of_spec _ _ Hmx'). }
    congruence.
Qed.

Lemma sample_library_present (r : Q) :
  In r DEFAULT_EXPLIST ->
  exists d,
    files sample_world !! os_path_join "darks" (dark_name (int r) "medcombine_sub")
      = Some d /\
    same_shape (sample_frame 1) d.
Proof.
  intros Hin. cbn in Hin.
  repeat (destruct Hin as [<-|Hin];
          [eexists; split; [vm_compute; reflexivity | repeat constructor]|]).
  destruct Hin.
Qed.

Lemma well_formed_library_returns_in_range_witness :
  exists dark,
    snd (choose_dark (PyFloat (45 # 2)) "darks" "medcombine_sub" Omitted true
           sample_world) = Returns dark /\
    same_shape (sample_frame 1) dark.
Proof.
  apply (well_formed_library_returns_in_range (PyFloat (45 # 2)) "darks"
           "medcombine_sub" Omitted true sample_world DEFAULT_EXPLIST 5 300
           (sample_frame 1) eq_refl).
  - repeat constructor.
  - vm_compute. reflexivity.
  - vm_compute. reflexivity.
  - discriminate.
  - discriminate.
  - exact sample_library_present.
Defined.

(** ** The arithmetic of the interpolation and scaling paths *)

Lemma nth_error_zip_with {A B C : Type} (f : A -> B -> C) (l : list A) (k : list B)
    (i : nat) (x : A) (y : B) :
  nth_error l i = Some x -> nth_error k i = Some y ->
  nth_error (zip_with f l k) i = Some (f x y).
Proof.
  revert k i. induction l as [|a l IH]; intros [|b k] [|i]; cbn; try discriminate.
  - now intros [= ->] [= ->].
  - apply IH.
Qed.

Lemma pixel_weighted_sum (d1 d2 : Frame) (a b : Q) (i j : nat) (p1 p2 : Q) :
  pixel d1 i j = Some p1 -> pixel d2 i j = Some p2 ->
  pixel (weighted_sum d1 a d2 b) i j = Some (p1 * a + p2 * b)%Q.
Proof.
  unfold pixel, weighted_sum. intros H1 H2.
  destruct (nth_error d1 i) as [r1|] eqn:E1; [|discriminate].
  destruct (nth_error d2 i) as [r2|] eqn:E2; [|discriminate].
  rewrite (nth_error_zip_with _ _ _ _ _ _ E1 E2).
  exact (nth_error_zip_with _ _ _ _ _ _ H1 H2).
Qed.

Lemma bracket_gap (refs : list Q) (t lb ub : Q) :
  max_of (select_lt refs t) = Some lb ->
  min_of (select_gt refs t) = Some ub ->
  (lb < t)%Q /\ (t < ub)%Q /\ (0 < ub - lb)%Q.
Proof.
  intros Hlb Hub.
  destruct (lower_bound_spec _ _ _ Hlb) as (_ & Hl & _).
  destruct (upper_bound_spec _ _ _ Hub) as (_ & Hu & _).
  repeat split; try assumption. lra.
Qed.

Lemma weights_in_unit_interval (t lb ub : Q) :
  (lb < t)%Q -> (t < ub)%Q ->
  (0 < (t - lb) / (ub - lb))%Q /\ ((t - lb) / (ub - lb) < 1)%Q /\
  (0 < (ub - t) / (ub - lb))%Q /\ ((ub - t) / (ub - lb) < 1)%Q.
Proof.
  intros Hl Hu. assert (Hd : (0 < ub - lb)%Q) by lra.
  repeat split.
  - apply Qlt_shift_div_l; [exact Hd | lra].
  - apply Qlt_shift_div_r; [exact Hd | lra].
  - apply Qlt_shift_div_l; [exact Hd | lra].
  - apply Qlt_shift_div_r; [exact Hd | lra].
Qed.

(** X9.  On the interpolation path the result is a convex combination of the
    two bracketing frames: both weights lie strictly between 0 and 1, so every
    returned pixel lies between the pixels of the two frames at that place. *)
Theorem interpolated_pixels_between_frames (exptime : pynum) (dark_dir suffix : string)
    (explist : explist_arg) (verbose : bool) (w : World) (refs : list Q)
    (mn mx : Q) :
  np_array explist w = (w, Returns refs) ->
  ~ member (inject_Z (int exptime)) refs ->
  min_of refs = Some mn ->
  max_of refs = Some mx ->
  (mn < exptime)%Q -> (exptime < mx)%Q ->
  exists lower_bound upper_bound,
    max_of (select_lt refs exptime) = Some lower_bound /\
    min_of (select_gt refs exptime) = Some upper_bound /\
    forall dark1 dark2,
      files w !! os_path_join dark_dir (dark_name (int lower_bound) suffix) = Some dark1 ->
      files w !! os_path_join dark_dir (dark_name (int upper_bound) suffix) = Some dark2 ->
      same_shape dark1 dark2 ->
      exists dark,
        snd (choose_dark exptime dark_dir suffix explist verbose w) = Returns dark /\
        forall i j p1 p2,
          pixel dark1 i j = Some p1 -> pixel dark2 i j = Some p2 ->
          exists p, pixel dark i j = Some p /\
                    ((p1 <= p2)%Q -> (p1 <= p)%Q /\ (p <= p2)%Q) /\
                    ((p2 <= p1)%Q -> (p2 <= p)%Q /\ (p <= p1)%Q).
Proof.
  intros Harr Hm Hmn Hmx Hlo Hhi. apply np_contains_not_member in Hm.
  destruct (lower_bound_exists _ _ _ Hmn Hlo) as [lb Hlb].
  destruct (upper_bound_exists _ _ _ Hmx Hhi) as [ub Hub].
  exists lb, ub. split; [exact Hlb|]. split; [exact Hub|].
  intros d1 d2 H1 H2 Hs. eexists. split.
  - now rewrite (between_result exptime dark_dir suffix explist verbose w refs mn mx
                   lb ub d1 d2 Harr Hm Hmn Hmx Hlo Hhi Hlb Hub H1 H2 Hs).
  - intros i j p1 p2 Hp1 Hp2. eexists. split;
      [exact (pixel_weighted_sum d1 d2 _ _ i j p1 p2 Hp1 Hp2)|].
    destruct (bracket_gap _ _ _ _ Hlb Hub) as (Hl & Hu & Hd).
    destruct (weights_in_unit_interval exptime lb ub Hl Hu) as (A1 & A2 & B1 & B2).
    assert (Hsum : ((exptime - lb) / (ub - lb) + (ub - exptime) / (ub - lb) == 1)%Q)
      by (field; lra).
    set (a := ((exptime - lb) / (ub - lb))%Q) in *.
    set (b := ((ub - exptime) / (ub - lb))%Q) in *.
    split; intros Hle; split; nra.
Qed.

Lemma interpolated_pixels_between_frames_witness :
  exists dark,
    snd (choose_dark (PyInt 12) "darks" "medcombine_sub" Omitted false sample_world)
      = Returns dark /\
    exists p, pixel dark 0 0 = Some p /\ (10 <= p)%Q /\ (p <= 20)%Q.
Proof.
  destruct (interpolated_pixels_between_frames (PyInt 12) "darks" "medcombine_sub" Omitted false
              sample_world DEFAULT_EXPLIST 5 300)
    as (lb & ub & Hlb & Hub & Hres).
  - reflexivity.
  - apply np_contains_not_member. vm_compute. reflexivity.
  - vm_compute. reflexivity.
  - vm_compute. reflexivity.
  - reflexivity.
  - reflexivity.
  - vm_compute in Hlb, Hub. inversion Hlb; subst lb. inversion Hub; subst ub.
    destruct (Hres (sample_frame 10) (sample_frame 20)) as (dark & Hd & Hpix).
    + vm_compute. reflexivity.
    + vm_compute. reflexivity.
    + repeat constructor.
    + exists dark. split; [exact Hd|].
      destruct (Hpix 0%nat 0%nat 10%Q 20%Q eq_refl eq_refl) as (p & Hp & Hle & _).
      exists p. split; [exact Hp|]. apply Hle. discriminate.
Defined.

Lemma weighted_sum_one_zero (d1 d2 : Frame) :
  same_shape d1 d2 -> frame_eq (weighted_sum d1 1 d2 0) d1.
Proof.
  unfold same_shape, frame_eq, weighted_sum.
  induction 1 as [|r1 r2 d1 d2 Hr Hd IH]; cbn; constructor; [|exact IH].
  clear - Hr. revert r2 Hr.
  induction r1 as [|p r1 IHr]; intros [|q r2] Hr; cbn in *; try discriminate;
    constructor; [ring | apply IHr; congruence].
Qed.

Lemma weighted_sum_zero_one (d1 d2 : Frame) :
  same_shape d1 d2 -> frame_eq (weighted_sum d1 0 d2 1) d2.
Proof.
  unfold same_shape, frame_eq, weighted_sum.
  induction 1 as [|r1 r2 d1 d2 Hr Hd IH]; cbn; constructor; [|exact IH].
  clear - Hr. revert r2 Hr.
  induction r1 as [|p r1 IHr]; intros [|q r2] Hr; cbn in *; try discriminate;
    constructor; [ring | apply IHr; congruence].
Qed.

(** X10.  The weights are attached the other way round from the usual linear
    interpolation: the array returned on the interpolation path is the
    straight line through the two bracketing frames (the lower frame at
    [lower_bound], the upper frame at [upper_bound]) evaluated at
    [lower_bound + upper_bound - exptime], the mirror image of the target in
    the bracket, not at [exptime]. *)
Theorem interpolation_is_mirrored (exptime : pynum) (dark_dir suffix : string)
    (explist : explist_arg) (verbose : bool) (w : World) (refs : list Q)
    (mn mx : Q) :
  np_array explist w = (w, Returns refs) ->
  ~ member (inject_Z (int exptime)) refs ->
  min_of refs = Some mn ->
  max_of refs = Some mx ->
  (mn < exptime)%Q -> (exptime < mx)%Q ->
  exists lower_bound upper_bound,
    max_of (select_lt refs exptime) = Some lower_bound /\
    min_of (select_gt refs exptime) = Some upper_bound /\
    forall dark1 dark2,
      files w !! os_path_join dark_dir (dark_name (int lower_bound) suffix) = Some dark1 ->
      files w !! os_path_join dark_dir (dark_name (int upper_bound) suffix) = Some dark2 ->
      same_shape dark1 dark2 ->
      let line := linear_interpolation lower_bound dark1 upper_bound dark2 in
      frame_eq (line lower_bound) dark1 /\
      frame_eq (line upper_bound) dark2 /\
      exists dark,
        snd (choose_dark exptime dark_dir suffix explist verbose w) = Returns dark /\
        frame_eq dark (line (lower_bound + upper_bound - exptime)%Q).
Proof.
  intros Harr Hm Hmn Hmx Hlo Hhi. apply np_contains_not_member in Hm.
  destruct (lower_bound_exists _ _ _ Hmn Hlo) as [lb Hlb].
  destruct (upper_bound_exists _ _ _ Hmx Hhi) as [ub Hub].
  exists lb, ub. split; [exact Hlb|]. split; [exact Hub|].
  intros d1 d2 H1 H2 Hs line. subst line. unfold linear_interpolation.
  destruct (bracket_gap _ _ _ _ Hlb Hub) as (Hl & Hu & Hd).
  assert (Hnz : ~ (ub - lb == 0)%Q) by lra.
  split; [|split].
  - eapply frame_eq_trans; [|exact (weighted_sum_one_zero d1 d2 Hs)].
    apply weighted_sum_weights; field; exact Hnz.
  - eapply frame_eq_trans; [|exact (weighted_sum_zero_one d1 d2 Hs)].
    apply weighted_sum_weights; field; exact Hnz.
  - eexists. split.
    + now rewrite (between_result exptime dark_dir suffix explist verbose w refs mn mx
                     lb ub d1 d2 Harr Hm Hmn Hmx Hlo Hhi Hlb Hub H1 H2 Hs).
    + apply weighted_sum_weights; field; exact Hnz.
Qed.

Lemma interpolation_is_mirrored_witness :
  exists dark,
    snd (choose_dark (PyInt 12) "darks" "medcombine_sub" Omitted false sample_world)
      = Returns dark /\
    frame_eq dark
      (linear_interpolation 10 (sample_frame 10) 20 (sample_frame 20) 18).
Proof.
  destruct (interpolation_is_mirrored (PyInt 12) "darks" "medcombine_sub" Omitted false
              sample_world DEFAULT_EXPLIST 5 300)
    as (lb & ub & Hlb & Hub & Hres).
  - reflexivity.
  - apply np_contains_not_member. vm_compute. reflexivity.
  - vm_compute. reflexivity.
  - vm_compute. reflexivity.
  - reflexivity.
  - reflexivity.
  - vm_compute in Hlb, Hub. inversion Hlb; subst lb. inversion Hub; subst ub.
    destruct (Hres (sample_frame 10) (sample_frame 20)) as (_ & _ & dark & Hd & Heq).
    + vm_compute. reflexivity.
    + vm_compute. reflexivity.
    + repeat constructor.
    + exists dark. split; [exact Hd|].
      eapply frame_eq_trans; [exact Heq|].
      unfold linear_interpolation. apply weighted_sum_weights; reflexivity.
Defined.

Lemma array_mul_frame_eq (d d' : Frame) (a : Q) :
  frame_eq d d' -> frame_eq (array_mul d a) (array_mul d' a).
Proof.
  unfold frame_eq, array_mul.
  induction 1 as [|r r' d d' Hr Hd IH]; cbn; constructor; [|exact IH].
  induction Hr as [|p q r r' Hpq Hrr IHr]; cbn; constructor; [|exact IHr].
  now rewrite Hpq.
Qed.

Lemma array_mul_mul (d : Frame) (a b : Q) :
  frame_eq (array_mul (array_mul d a) b) (array_mul d (a * b)).
Proof.
  unfold frame_eq, array_mul.
  induction d as [|r d IH]; cbn; constructor; [|exact IH].
  induction r as [|p r IHr]; cbn; constructor; [|exact IHr].
  ring.
Qed.

(** X11.  Scaling is exact for dark current that is linear in exposure time:
    when the frame stored for the boundary reference [m] (the minimum for a
    target below it, the maximum for a target above it) is [rate * m]
    pixelwise, and the products and quotients the code forms are
    representable, the array returned for the target is [rate * exptime]. *)
Theorem scaling_exact_for_linear_dark (exptime : pynum) (dark_dir suffix : string)
    (explist : explist_arg) (verbose : bool) (w : World) (refs : list Q)
    (m : Q) (d rate : Frame) :
  np_array explist w = (w, Returns refs) ->
  ~ member (inject_Z (int exptime)) refs ->
  (min_of refs = Some m /\ (exptime < m)%Q) \/
  (max_of refs = Some m /\ (m < exptime)%Q) ->
  ~ (m == 0)%Q ->
  let darkfile := os_path_join dark_dir (dark_name (int m) suffix) in
  files w !! darkfile = Some d ->
  product_representable (dtype_of w darkfile) d exptime ->
  quotient_representable (dtype_of w darkfile) d exptime m ->
  frame_eq d (array_mul rate m) ->
  exists dark,
    snd (choose_dark exptime dark_dir suffix explist verbose w) = Returns dark /\
    frame_eq dark (array_mul rate exptime).
Proof.
  intros Harr Hm Hpath Hnz darkfile Hd Hp Hq Hlin. apply np_contains_not_member in Hm.
  destruct (scaled_exact w darkfile exptime m d Hd Hnz Hp Hq) as (dark & Hs & Heq).
  exists dark. split.
  - destruct Hpath as [[Hmn Hlt] | [Hmx Hgt]].
    + rewrite (branch_below _ _ _ _ _ _ _ Harr m Hm Hmn Hlt). cbv zeta.
      rewrite below_eval. exact Hs.
    + destruct (min_of_is_Some refs m) as [mn Hmn];
        [now destruct (max_of_spec _ _ Hmx)|].
      rewrite (branch_above _ _ _ _ _ _ _ Harr mn m Hm Hmn Hmx Hgt). cbv zeta.
      rewrite above_eval. exact Hs.
  - eapply frame_eq_trans; [exact Heq|].
    eapply frame_eq_trans; [apply array_mul_frame_eq; exact Hlin|].
    eapply frame_eq_trans; [apply array_mul_mul|].
    apply array_mul_scalar. field. exact Hnz.
Qed.

Lemma scaling_exact_for_linear_dark_witness :
  exists dark,
    snd (choose_dark (PyInt 600) "darks" "medcombine_sub" Omitted false sample_world)
      = Returns dark /\
    frame_eq dark (array_mul (sample_frame 1) (PyInt 600)).
Proof.
  destruct (float64_representable (sample_frame 300) (PyInt 600) 300) as [Hp Hq];
    [vm_compute; reflexivity..|].
  apply (scaling_exact_for_linear_dark (PyInt 600) "darks" "medcombine_sub" Omitted false
           sample_world DEFAULT_EXPLIST 300 (sample_frame 300) (sample_frame 1) eq_refl).
  - apply np_contains_not_member. vm_compute. reflexivity.
  - right. split; [vm_compute; reflexivity | reflexivity].
  - discriminate.
  - vm_compute. reflexivity.
  - exact Hp.
  - exact Hq.
  - repeat constructor.
Defined.

(** X12.  When the truncated target is a reference, the fractional part of the
    target plays no role: the call does exactly what the call with the
    truncated target does. *)
Theorem fraction_ignored_on_exact_match (exptime : pynum) (dark_dir suffix : string)
    (explist : explist_arg) (verbose : bool) (w : World) (refs : list Q) :
  np_array explist w = (w, Returns refs) ->
  member (inject_Z (int exptime)) refs ->
  choose_dark exptime dark_dir suffix explist verbose w
    = choose_dark (PyInt (int exptime)) dark_dir suffix explist verbose w.
Proof.
  intros Harr Hm. apply np_contains_member in Hm.
  rewrite (branch_exact exptime _ _ _ _ _ _ Harr Hm).
  rewrite (branch_exact (PyInt (int exptime)) dark_dir suffix explist verbose w refs
             Harr); cbn [num_value]; rewrite int_inject_Z; [reflexivity | exact Hm].
Qed.

Lemma fraction_ignored_on_exact_match_witness :
  choose_dark (PyFloat 10.9) "darks" "medcombine_sub" Omitted true sample_world
    = choose_dark (PyInt 10) "darks" "medcombine_sub" Omitted true sample_world.
Proof.
  apply (fraction_ignored_on_exact_match (PyFloat 10.9) "darks" "medcombine_sub" Omitted true
           sample_world DEFAULT_EXPLIST eq_refl).
  apply np_contains_member. vm_compute. reflexivity.
Defined.

(** ** File names *)

Lemma string_length_app (s1 s2 : string) :
  String.length (s1 +:+ s2) = (String.length s1 + String.length s2)%nat.
Proof. induction s1 as [|c s1 IH]; simpl; [reflexivity | now f_equal]. Qed.

Lemma string_app_inv_tail (s1 s2 r : string) : s1 +:+ r = s2 +:+ r -> s1 = s2.
Proof.
  revert s2. induction s1 as [|a s1 IH]; intros [|b s2] H.
  - reflexivity.
  - exfalso. apply (f_equal String.length) in H.
    rewrite !string_length_app in H. simpl in H. lia.
  - exfalso. apply (f_equal String.length) in H.
    rewrite !string_length_app in H. simpl in H. lia.
  - simpl in H. injection H as -> H. f_equal. now apply IH.
Qed.

Lemma string_app_inv_head (s r1 r2 : string) : s +:+ r1 = s +:+ r2 -> r1 = r2.
Proof.
  induction s as [|c s IH]; cbn; [easy|]. intros H. injection H as H. now apply IH.
Qed.

Lemma to_int_not_nil (z : Z) :
  Z.to_int z <> Decimal.Pos Decimal.Nil /\ Z.to_int z <> Decimal.Neg Decimal.Nil.
Proof.
  destruct z as [|p|p]; cbn; split; try discriminate; intros [= H];
    exact (Unsigned.to_uint_nonnil p H).
Qed.

Lemma str_inj (z1 z2 : Z) : str z1 = str z2 -> z1 = z2.
Proof.
  unfold str. intros H. apply (f_equal NilZero.int_of_string) in H.
  destruct (to_int_not_nil z1) as [A1 A2], (to_int_not_nil z2) as [B1 B2].
  rewrite !NilZero.isi in H by assumption.
  injection H as H. now apply to_int_inj.
Qed.

Lemma dark_name_not_absolute (e : Z) (suffix : string) :
  startswith_sep (dark_name e suffix) = false.
Proof. reflexivity. Qed.

(** X13.  Different whole-number exposures never share a dark file: for one
    directory and one suffix, the path built for an exposure determines the
    exposure. *)
Theorem dark_file_determines_exposure (dark_dir suffix : string) (e1 e2 : Z) :
  os_path_join dark_dir (dark_name e1 suffix)
    = os_path_join dark_dir (dark_name e2 suffix) ->
  e1 = e2.
Proof.
  unfold os_path_join. rewrite !dark_name_not_absolute.
  intros H.
  assert (Hn : dark_name e1 suffix = dark_name e2 suffix).
  { destruct (String.eqb dark_dir "" || endswith_sep dark_dir)%bool.
    - now apply string_app_inv_head in H.
    - apply string_app_inv_head in H. now apply (string_app_inv_head "/") in H. }
  unfold dark_name in Hn. apply string_app_inv_head in Hn.
  apply string_app_inv_tail in Hn. now apply str_inj.
Qed.

Lemma dark_file_determines_exposure_witness :
  os_path_join "darks" (dark_name 10 "medcombine_sub")
    <> os_path_join "darks" (dark_name 20 "medcombine_sub").
Proof.
  intros H.
  pose proof (dark_file_determines_exposure "darks" "medcombine_sub" 10 20 H) as E.
  discriminate E.
Defined.

(** ** The order of the references *)

Lemma outcome_eq_refl (o : outcome Frame) : outcome_eq o o.
Proof. destruct o; cbn; [apply frame_eq_refl | reflexivity..]. Qed.

Lemma same_elements_contains (x : Q) (l1 l2 : list Q) :
  same_elements l1 l2 -> np_contains x l1 = np_contains x l2.
Proof.
  intros H.
  assert (Hm : member x l1 <-> member x l2).
  { unfold member. split; intros (r & Hin & Hr); exists r; split; try exact Hr;
      now apply H. }
  destruct (np_contains x l1) eqn:E1, (np_contains x l2) eqn:E2; try reflexivity.
  - apply np_contains_member, Hm, np_contains_member in E1. congruence.
  - apply np_contains_member, Hm, np_contains_member in E2. congruence.
Qed.

Lemma same_elements_min (l1 l2 : list Q) (m1 : Q) :
  same_elements l1 l2 -> min_of l1 = Some m1 ->
  exists m2, min_of l2 = Some m2 /\ (m1 == m2)%Q.
Proof.
  intros H H1. destruct (min_of_spec _ _ H1) as [Hin1 Hle1].
  destruct (min_of_is_Some l2 m1 (proj1 (H m1) Hin1)) as [m2 H2].
  destruct (min_of_spec _ _ H2) as [Hin2 Hle2].
  exists m2. split; [exact H2|]. apply Qle_antisym.
  - apply Hle1. now apply H.
  - apply Hle2. now apply H.
Qed.

Lemma same_elements_max (l1 l2 : list Q) (m1 : Q) :
  same_elements l1 l2 -> max_of l1 = Some m1 ->
  exists m2, max_of l2 = Some m2 /\ (m1 == m2)%Q.
Proof.
  intros H H1. destruct (max_of_spec _ _ H1) as [Hin1 Hle1].
  destruct (max_of_is_Some l2 m1 (proj1 (H m1) Hin1)) as [m2 H2].
  destruct (max_of_spec _ _ H2) as [Hin2 Hle2].
  exists m2. split; [exact H2|]. apply Qle_antisym.
  - apply Hle2. now apply H.
  - apply Hle1. now apply H.
Qed.

Lemma same_elements_select_lt (l1 l2 : list Q) (t : Q) :
  same_elements l1 l2 -> same_elements (select_lt l1 t) (select_lt l2 t).
Proof. intros H x. rewrite !In_select_lt. now rewrite (H x). Qed.

Lemma same_elements_select_gt (l1 l2 : list Q) (t : Q) :
  same_elements l1 l2 -> same_elements (select_gt l1 t) (select_gt l2 t).
Proof. intros H x. rewrite !In_select_gt. now rewrite (H x). Qed.

Lemma array_div_scalar (d : Frame) (a b : Q) :
  (a == b)%Q -> frame_eq (array_div d a) (array_div d b).
Proof.
  intros Hab. unfold frame_eq, array_div.
  induction d as [|r d IH]; cbn; constructor; [|exact IH].
  induction r as [|p r IHr]; cbn; constructor; [|exact IHr].
  now rewrite Hab.
Qed.

Lemma true_divide_divisor (ty : dtype) (d : Frame) (m1 m2 : Q) :
  (m1 == m2)%Q -> outcome_eq (true_divide ty d m1) (true_divide ty d m2).
Proof.
  intros Hm. unfold true_divide.
  assert (Hz : Qeq_bool m1 0 = Qeq_bool m2 0).
  { destruct (Qeq_bool m1 0) eqn:E1, (Qeq_bool m2 0) eqn:E2; try reflexivity.
    - apply Qeq_bool_iff in E1. rewrite Hm in E1. apply Qeq_bool_iff in E1. congruence.
    - apply Qeq_bool_iff in E2. rewrite <- Hm in E2. apply Qeq_bool_iff in E2.
      congruence. }
  rewrite Hz. destruct (Qeq_bool m2 0); [apply outcome_eq_refl|]. cbv zeta.
  pose proof (array_div_scalar d m1 m2 Hm) as Hq.
  rewrite (within_frame_eq DBL_MAX _ _ Hq).
  destruct (within DBL_MAX (array_div d m2)); [|reflexivity].
  destruct ty as [lo hi|fmax]; [exact Hq|].
  rewrite (within_frame_eq fmax _ _ Hq).
  destruct (within fmax (array_div d m2)); [exact Hq | reflexivity].
Qed.

Lemma scaled_divisor (w : World) (path : string) (t : pynum) (m1 m2 : Q) :
  (m1 == m2)%Q -> outcome_eq (scaled w path t m1) (scaled w path t m2).
Proof.
  intros Hm. unfold scaled. destruct (files w !! path) as [d|]; [|reflexivity].
  destruct (multiply_scalar (dtype_of w path) d t) as [prod|e|l];
    [now apply true_divide_divisor | reflexivity..].
Qed.

Lemma stretch_rel {A : Type} (R : A -> A -> Prop) (n : nat) (xs xs' : list A) :
  Forall2 R xs xs' -> Forall2 R (stretch n xs) (stretch n xs').
Proof.
  intros H. unfold stretch. rewrite <- (Forall2_length _ _ _ H).
  destruct (Nat.eqb (length xs) n); [exact H|].
  destruct H as [|x x' xs xs' Hx Hxs]; [constructor|].
  destruct Hxs; [|now repeat constructor].
  induction n; cbn; constructor; assumption.
Qed.

Lemma sequence_map_rel {A B : Type} (R : A -> A -> Prop) (S : B -> B -> Prop)
    (f : A -> A -> option B) :
  (forall x x' y y', R x x' -> R y y' -> option_Forall2 S (f x y) (f x' y')) ->
  forall xs xs' ys ys', Forall2 R xs xs' -> Forall2 R ys ys' ->
    option_Forall2 (Forall2 S)
      (sequence_opt (map (fun p => f (fst p) (snd p)) (combine xs ys)))
      (sequence_opt (map (fun p => f (fst p) (snd p)) (combine xs' ys'))).
Proof.
  intros Hf xs xs' ys ys' Hx. revert ys ys'.
  induction Hx as [|x x' xs xs' Hxx Hxs IH]; intros ys ys' Hy; cbn;
    [repeat constructor|].
  destruct Hy as [|y y' ys ys' Hyy Hys]; cbn; [repeat constructor|].
  destruct (Hf x x' y y' Hxx Hyy) as [b b' Hb|]; [|constructor].
  destruct (IH ys ys' Hys) as [l l' Hl|]; repeat constructor; assumption.
Qed.

Lemma broadcast2_rel {A B : Type} (R : A -> A -> Prop) (S : B -> B -> Prop)
    (f : A -> A -> option B) :
  (forall x x' y y', R x x' -> R y y' -> option_Forall2 S (f x y) (f x' y')) ->
  forall xs xs' ys ys', Forall2 R xs xs' -> Forall2 R ys ys' ->
    option_Forall2 (Forall2 S) (broadcast2 f xs ys) (broadcast2 f xs' ys').
Proof.
  intros Hf xs xs' ys ys' Hx Hy. unfold broadcast2.
  rewrite <- (Forall2_length _ _ _ Hx), <- (Forall2_length _ _ _ Hy).
  destruct (broadcast_len (length xs) (length ys)) as [n|]; [|constructor].
  apply (sequence_map_rel R S f Hf); now apply stretch_rel.
Qed.

Lemma array_add_frame_eq (d1 d1' d2 d2' : Frame) :
  frame_eq d1 d1' -> frame_eq d2 d2' ->
  option_Forall2 frame_eq (array_add d1 d2) (array_add d1' d2').
Proof.
  unfold array_add, frame_eq.
  apply (broadcast2_rel (Forall2 Qeq) (Forall2 Qeq)).
  apply (broadcast2_rel Qeq Qeq).
  intros x x' y y' Hx Hy. constructor. now rewrite Hx, Hy.
Qed.

Lemma averaged_weights (w : World) (path1 path2 : string) (a a' b b' : Q) :
  (a == a')%Q -> (b == b')%Q ->
  outcome_eq (averaged w path1 path2 a b) (averaged w path1 path2 a' b').
Proof.
  intros Ha Hb. unfold averaged.
  destruct (files w !! path1) as [d1|]; [|reflexivity].
  destruct (files w !! path2) as [d2|]; [|reflexivity].
  destruct (array_add_frame_eq (array_mul d1 a) (array_mul d1 a')
              (array_mul d2 b) (array_mul d2 b'))
    as [d d' Hd|]; [now apply array_mul_scalar.. | exact Hd | reflexivity].
Qed.

(** X14.  Only the set of reference exposures matters: two lists with the
    same elements, in any order and with any repetitions, make the call
    print the same and end the same way (the same error, or arrays that are
    equal pixel by pixel). *)
Theorem order_of_references_is_irrelevant (exptime : pynum) (dark_dir suffix : string)
    (explist1 explist2 : explist_arg) (verbose : bool) (w : World)
    (refs1 refs2 : list Q) :
  np_array explist1 w = (w, Returns refs1) ->
  np_array explist2 w = (w, Returns refs2) ->
  same_elements refs1 refs2 ->
  fst (choose_dark exptime dark_dir suffix explist1 verbose w)
    = fst (choose_dark exptime dark_dir suffix explist2 verbose w) /\
  outcome_eq (snd (choose_dark exptime dark_dir suffix explist1 verbose w))
             (snd (choose_dark exptime dark_dir suffix explist2 verbose w)).
Proof.
  intros Harr1 Harr2 Hsame.
  pose proof (same_elements_contains (inject_Z (int exptime)) _ _ Hsame) as Hcont.
  destruct (path_of_total exptime refs1)
    as [Hc | He | mn Hc Hmn Hlt | mn mx lb ub Hc Hmn Hmx Hlo Hhi Hlb Hub
        | mn mx Hc Hmn Hmx Hgt | mn mx Hc Hmn Hmx Heq].
  - rewrite (branch_exact _ _ _ _ _ _ _ Harr1 Hc).
    rewrite Hcont in Hc. rewrite (branch_exact _ _ _ _ _ _ _ Harr2 Hc).
    split; [reflexivity | apply outcome_eq_refl].
  - assert (He2 : refs2 = []).
    { subst refs1. destruct refs2 as [|q l]; [reflexivity|].
      destruct (proj2 (Hsame q) (or_introl eq_refl)). }
    rewrite (branch_empty _ _ _ _ _ _ _ Harr1 He), (branch_empty _ _ _ _ _ _ _ Harr2 He2).
    split; [reflexivity | apply outcome_eq_refl].
  - destruct (same_elements_min _ _ _ Hsame Hmn) as (mn2 & Hmn2 & En).
    rewrite (branch_below _ _ _ _ _ _ _ Harr1 mn Hc Hmn Hlt), below_eval.
    rewrite Hcont in Hc. rewrite En in Hlt.
    rewrite (branch_below _ _ _ _ _ _ _ Harr2 mn2 Hc Hmn2 Hlt), below_eval.
    rewrite (int_Qeq _ _ En). split; [reflexivity | now apply scaled_divisor].
  - destruct (same_elements_min _ _ _ Hsame Hmn) as (mn2 & Hmn2 & En).
    destruct (same_elements_max _ _ _ Hsame Hmx) as (mx2 & Hmx2 & Ex).
    destruct (same_elements_max _ _ _ (same_elements_select_lt _ _ exptime Hsame) Hlb)
      as (lb2 & Hlb2 & El).
    destruct (same_elements_min _ _ _ (same_elements_select_gt _ _ exptime Hsame) Hub)
      as (ub2 & Hub2 & Eu).
    rewrite (branch_between _ _ _ _ _ _ _ Harr1 mn mx lb ub Hc Hmn Hmx Hlo Hhi Hlb Hub).
    rewrite Hcont in Hc. rewrite En in Hlo. rewrite Ex in Hhi.
    rewrite (branch_between _ _ _ _ _ _ _ Harr2 mn2 mx2 lb2 ub2 Hc Hmn2 Hmx2 Hlo Hhi
               Hlb2 Hub2).
    cbv zeta. rewrite !between_eval, (int_Qeq _ _ El), (int_Qeq _ _ Eu).
    split; [reflexivity|]. apply averaged_weights; now rewrite El, Eu.
  - destruct (same_elements_min _ _ _ Hsame Hmn) as (mn2 & Hmn2 & En).
    destruct (same_elements_max _ _ _ Hsame Hmx) as (mx2 & Hmx2 & Ex).
    rewrite (branch_above _ _ _ _ _ _ _ Harr1 mn mx Hc Hmn Hmx Hgt).
    rewrite Hcont in Hc. rewrite Ex in Hgt.
    rewrite (branch_above _ _ _ _ _ _ _ Harr2 mn2 mx2 Hc Hmn2 Hmx2 Hgt).
    cbv zeta. rewrite !above_eval, (int_Qeq _ _ Ex).
    split; [reflexivity | now apply scaled_divisor].
  - destruct (same_elements_min _ _ _ Hsame Hmn) as (mn2 & Hmn2 & En).
    destruct (same_elements_max _ _ _ Hsame Hmx) as (mx2 & Hmx2 & Ex).
    rewrite (branch_unbound _ _ _ _ _ _ _ Harr1 mn mx Hc Hmn Hmx Heq).
    rewrite Hcont in Hc. rewrite En, Ex in Heq.
    rewrite (branch_unbound _ _ _ _ _ _ _ Harr2 mn2 mx2 Hc Hmn2 Hmx2 Heq).
    split; [reflexivity | apply outcome_eq_refl].
Qed.

Lemma order_of_references_is_irrelevant_witness :
  fst (choose_dark (PyInt 12) "darks" "medcombine_sub" (Passed 0) true shuffled_world)
    = fst (choose_dark (PyInt 12) "darks" "medcombine_sub" (Passed 1) true shuffled_world) /\
  outcome_eq
    (snd (choose_dark (PyInt 12) "darks" "medcombine_sub" (Passed 0) true shuffled_world))
    (snd (choose_dark (PyInt 12) "darks" "medcombine_sub" (Passed 1) true shuffled_world)).
Proof.
  apply (order_of_references_is_irrelevant (PyInt 12) "darks" "medcombine_sub"
           (Passed 0) (Passed 1) true shuffled_world
           [inject_Z 10; inject_Z 20] [inject_Z 20; inject_Z 10; inject_Z 10]).
  - vm_compute. reflexivity.
  - vm_compute. reflexivity.
  - intros x. cbn. tauto.
Defined.
